(** * TIN-Relay: the command dispatch engine of [commands.js]

    A shallow embedding of the command registry, the hook bus and the
    serial-connection lifecycle commands, with the properties of the
    dispatch engine proved over it.

    - JavaScript values that the engine reads ([args[0]], a response's
      [name], [config.device]) are strings, [undefined] or [null].
    - The command handlers are effectful: they mutate the shared [config]
      object, talk to the serial transport, fire hooks and call the response
      callback.  They are written in a small state-and-exception monad over
      a [World] that holds the shared objects and a chronological trace of
      everything that left the engine.
    - The transport ([SerialPort]) and the hook listeners are external code.
      A call into them is recorded in the trace; the callbacks handed to the
      transport are kept in the world as closures and are run when the
      transport completes an operation or raises an event. *)

From Stdlib Require Import String Ascii List ZArith Bool.
Import ListNotations.
Open Scope string_scope.
Open Scope Z_scope.

(** ** JavaScript values *)

Inductive Value : Type :=
| VUndefined
| VNull
| VStr (s : string).

(** String conversion, as performed by a template literal. *)
Definition show (v : Value) : string :=
  match v with
  | VUndefined => "undefined"
  | VNull => "null"
  | VStr s => s
  end.

(** [args[i]] on an array of strings. *)
Definition index (args : list string) (i : nat) : Value :=
  match nth_error args i with
  | Some s => VStr s
  | None => VUndefined
  end.

(** [!v] is false: among these values, for a string that is not empty. *)
Definition truthy (v : Value) : bool :=
  match v with
  | VStr s => negb (String.eqb s EmptyString)
  | _ => false
  end.

(** [arr.includes(x)] on an array of strings. *)
Definition includes (arr : list string) (x : string) : bool :=
  existsb (String.eqb x) arr.

(** [s.split(sep)] for a one-character separator: every occurrence of the
    separator ends a token, so the result always has at least one token. *)
Fixpoint split (sep : ascii) (s : string) : list string :=
  match s with
  | EmptyString => [EmptyString]
  | String c rest =>
      if Ascii.eqb c sep then EmptyString :: split sep rest
      else match split sep rest with
           | tok :: toks => String c tok :: toks
           | [] => [String c EmptyString]
           end
  end.

Definition space : ascii := " "%char.

(** ** Data of the engine *)

(** [Param]: a command parameter. *)
Module Param.
Record t : Type := mk { name : string; type : string; required : bool }.
End Param.

(** [CommandResponse]. *)
Module Response.
Record t : Type := mk { name : Value; status : Z; data : list string }.
End Response.

(** A transport handle: the n-th [SerialPort] object constructed. *)
Definition Handle : Type := nat.

(** A hook listener, identified by the function object subscribed. *)
Definition Listener : Type := nat.

(** The data handed to a hook: the call sites pass an array, or a string. *)
Inductive Payload : Type :=
| PArray (items : list string)
| PString (s : string).

(** The [config] object of [index.js], shared by all commands. *)
Record Config : Type := mkConfig {
  device : Value;
  init : bool;
  ready : bool;
  port : Handle
}.

(** An entry of [CommandManager.HOOKS]. *)
Record Hook : Type := mkHook { hook : string; callback : Listener }.

(** What leaves the engine, in the order it happens. *)
Inductive Event : Type :=
| Respond (r : Response.t)                    (* callback(response) *)
| Deliver (l : Listener) (d : Payload)        (* hook.callback(data) *)
| PortNew (h : Handle) (path : Value) (baudRate : Z) (autoOpen : bool)
| PortOpen (h : Handle)
| PortClose (h : Handle)
| PortWrite (h : Handle) (msg : string)
| PortOn (h : Handle) (ev : string).

(** The function objects the handlers give to the transport.  Each one
    closes over the handler's [name] and [args] (or [msg]); [config] and the
    response callback are shared. *)

(** The callbacks given to [port.open] and [port.write]. *)
Inductive Completion : Type :=
| OpenDone (name : Value) (args : list string)
| WriteDone (name : Value) (msg : string).

(** The callbacks given to [port.on]. *)
Inductive PortListener : Type :=
| OnError
| OnData.

Record World : Type := mkWorld {
  config : Config;
  HOOKS : list Hook;
  ports : nat;                                  (* handles constructed so far *)
  pending : list (Handle * Completion);         (* callbacks not yet called *)
  listeners : list (Handle * string * PortListener);  (* port.on *)
  trace : list Event
}.

(** ** The monad of handlers *)

Inductive Outcome (A : Type) : Type :=
| Ok (a : A) (w : World)          (* returned normally *)
| Throw (e : string) (w : World)  (* an exception escaped *)
| Exit (code : Z) (w : World).    (* process.exit(code) *)

Arguments Ok {A} a w.
Arguments Throw {A} e w.
Arguments Exit {A} code w.

Definition M (A : Type) : Type := World -> Outcome A.

Definition ret {A} (a : A) : M A := fun w => Ok a w.

Definition bind {A B} (m : M A) (k : A -> M B) : M B :=
  fun w =>
    match m w with
    | Ok a w' => k a w'
    | Throw e w' => Throw e w'
    | Exit c w' => Exit c w'
    end.

Declare Scope js_scope.
Delimit Scope js_scope with js.
Notation "x <- m ;; k" := (bind m (fun x => k))
  (at level 61, m at next level, right associativity) : js_scope.
Notation "m ;; k" := (bind m (fun _ => k))
  (at level 61, right associativity) : js_scope.
Open Scope js_scope.

Definition throw {A} (e : string) : M A := fun w => Throw e w.
Definition exit {A} (code : Z) : M A := fun w => Exit code w.

Definition TypeError : string := "TypeError".

Definition with_config (c : Config) (w : World) : World :=
  mkWorld c (HOOKS w) (ports w) (pending w) (listeners w) (trace w).

Definition with_trace (t : list Event) (w : World) : World :=
  mkWorld (config w) (HOOKS w) (ports w) (pending w) (listeners w) t.

(** [emit evs w]: the world after [evs] happened, in that order. *)
Definition emit (evs : list Event) (w : World) : World :=
  with_trace (trace w ++ evs)%list w.

Definition log (ev : Event) : M unit := fun w => Ok tt (emit [ev] w).

Definition get_config : M Config := fun w => Ok (config w) w.

Definition modify_config (f : Config -> Config) : M unit :=
  fun w => Ok tt (with_config (f (config w)) w).

Definition set_device (v : Value) (c : Config) : Config :=
  mkConfig v (init c) (ready c) (port c).
Definition set_init (b : bool) (c : Config) : Config :=
  mkConfig (device c) b (ready c) (port c).
Definition set_ready (b : bool) (c : Config) : Config :=
  mkConfig (device c) (init c) b (port c).
Definition set_port (h : Handle) (c : Config) : Config :=
  mkConfig (device c) (init c) (ready c) h.

(** The response callback given to [CommandManager.process]. *)
Definition respond (r : Response.t) : M unit := log (Respond r).

(** *** The transport capability *)

(** [new SerialPort({path, baudRate, autoOpen})], for the constructor of the
    serialport package that [index.js] hands to the commands in the tool:
    it throws a TypeError when [!path], a missing or an empty path, and
    otherwise returns a new port without opening it (the baud rates of the
    program are numbers, which is all the constructor asks of them). *)
Definition new_SerialPort (path : Value) (baudRate : Z) (autoOpen : bool)
  : M Handle :=
  fun w =>
    if truthy path then
      let h := ports w in
      Ok h (mkWorld (config w) (HOOKS w) (S h) (pending w) (listeners w)
              (trace w ++ [PortNew h path baudRate autoOpen])%list)
    else Throw TypeError w.

(** [port.open(k)] and [port.write(msg, k)]: the transport keeps [k] and
    calls it when the operation completes. *)
Definition defer (h : Handle) (k : Completion) (ev : Event) : M unit :=
  fun w =>
    Ok tt (mkWorld (config w) (HOOKS w) (ports w) (pending w ++ [(h, k)])%list
             (listeners w) (trace w ++ [ev])%list).

Definition port_open (h : Handle) (k : Completion) : M unit :=
  defer h k (PortOpen h).

Definition port_write (h : Handle) (msg : string) (k : Completion) : M unit :=
  defer h k (PortWrite h msg).

Definition port_close (h : Handle) : M unit := log (PortClose h).

(** [port.on(ev, k)]. *)
Definition port_on (h : Handle) (ev : string) (k : PortListener) : M unit :=
  fun w =>
    Ok tt (mkWorld (config w) (HOOKS w) (ports w) (pending w)
             (listeners w ++ [(h, ev, k)])%list (trace w ++ [PortOn h ev])%list).

(** ** [CommandParamaters] *)

Module CommandParamaters.

Definition t : Type := list Param.t.

(** One element of the array built by the loop of [toSting]. *)
Definition render (param : Param.t) : string :=
  if Param.required param
  then String.concat "" ["<"; Param.name param; ": "; Param.type param; ">"]
  else String.concat "" ["["; Param.name param; ": "; Param.type param; "]"].

Definition toSting (params : t) : string :=
  String.concat " " (map render params).

End CommandParamaters.

(** ** [Command] *)

Module Command.

(** A command over handlers of type [H]. *)
Record t (H : Type) : Type := mk {
  name : list string;
  handler : H;
  params : CommandParamaters.t
}.
Arguments mk {H} name handler params.
Arguments name {H} _.
Arguments handler {H} _.
Arguments params {H} _.

Definition genResponse (name : Value) (status : Z) (data : list string)
  : Response.t :=
  Response.mk name status data.

Definition ERR_NOCMD : Response.t :=
  genResponse VNull 1 ["Error: No Command"].

Section Process.
Context {H : Type}.
(** How a handler function is called: [handler(name, callback, tool,
    params)], with the callback and the tool held by the world. *)
Variable call : H -> Value -> list string -> M unit.

Definition process (c : t H) (params : list string) : M unit :=
  call (handler c) (index (name c) 0) params.
End Process.

Definition toString {H} (c : t H) : string :=
  String.concat " "
    [String.concat "/" (name c); CommandParamaters.toSting (params c)].

End Command.

(** ** Property keys *)

(** The value of a decimal digit. *)
Definition digit (c : ascii) : option N :=
  let n := N_of_ascii c in
  if (48 <=? n)%N && (n <=? 57)%N then Some (n - 48)%N else None.

Fixpoint decimal (s : string) (acc : N) : option N :=
  match s with
  | EmptyString => Some acc
  | String c rest =>
      match digit c with
      | Some d => decimal rest (10 * acc + d)%N
      | None => None
      end
  end.

(** A property key is an array index when it is the canonical decimal form
    of an integer below 2^32 - 1: digits only, no leading zero. *)
Definition array_index (key : string) : option N :=
  match key with
  | EmptyString => None
  | String c rest =>
      if Ascii.eqb c "0" && negb (String.eqb rest EmptyString) then None
      else match decimal key 0 with
           | Some n => if (n <=? 4294967294)%N then Some n else None
           | None => None
           end
  end.

(** [Object.keys] lists [key] before [k] whenever both are present: array
    indices come first, in ascending order; the other keys follow in the
    order of their insertion. *)
Definition precedes (key k : string) : bool :=
  match array_index key, array_index k with
  | Some n, Some m => (n <? m)%N
  | Some _, None => true
  | None, _ => false
  end.

(** A list of keys as [Object.keys] can return it: no key comes after one
    that it precedes. *)
Fixpoint key_ordered (ks : list string) : bool :=
  match ks with
  | [] => true
  | k :: rest =>
      forallb (fun k' => negb (precedes k' k)) rest && key_ordered rest
  end.

(** ** [CommandManager] *)

Module CommandManager.

(** [COMMANDS]: an object used as a map from primary name to command.  The
    object is the association list of its entries in the order in which
    [Object.keys] lists them: array-index keys in ascending order, then
    the other keys in insertion order. *)
Definition Registry (H : Type) : Type := list (string * Command.t H).

Section Registry.
Context {H : Type}.
Implicit Types (cmds : Registry H) (c : Command.t H).

Definition keys cmds : list string := map fst cmds.

Definition getCommand cmds (name : string) : option (Command.t H) :=
  option_map snd
    (find (fun kc => includes (Command.name (snd kc)) name) cmds).

(** [COMMANDS[key] = c] on a key of the object: the key keeps its
    place. *)
Fixpoint replace cmds (key : string) c : Registry H :=
  match cmds with
  | [] => []
  | (k, c') :: rest =>
      if String.eqb k key then (k, c) :: rest
      else (k, c') :: replace rest key c
  end.

(** [COMMANDS[key] = c] on a new key: the entry goes where [Object.keys]
    will list it, last unless the key is an array index. *)
Fixpoint insert cmds (key : string) c : Registry H :=
  match cmds with
  | [] => [(key, c)]
  | (k, c') :: rest =>
      if precedes key k then (key, c) :: (k, c') :: rest
      else (k, c') :: insert rest key c
  end.

Definition assign cmds (key : string) c : Registry H :=
  if includes (keys cmds) key then replace cmds key c else insert cmds key c.

Definition registerCommand cmds c : Registry H :=
  assign cmds (show (index (Command.name c) 0)) c.

(** The loop of [getNames]: [None] when [getCommand(cmd)] is undefined
    and reading its [name] throws. *)
Fixpoint all_names cmds (ks : list string) : option (list string) :=
  match ks with
  | [] => Some []
  | cmd :: rest =>
      match getCommand cmds cmd, all_names cmds rest with
      | Some c, Some names => Some (Command.name c ++ names)%list
      | _, _ => None
      end
  end.

Definition getNames cmds (primary_only : bool) : option (list string) :=
  if primary_only then Some (keys cmds) else all_names cmds (keys cmds).

Variable call : H -> Value -> list string -> M unit.

Definition process cmds (line : string) : M unit :=
  let cmd := hd EmptyString (split space line) in
  let params := tl (split space line) in
  match getNames cmds false with
  | None => throw TypeError
  | Some names =>
      if negb (includes names cmd) then respond Command.ERR_NOCMD
      else match getCommand cmds cmd with
           | Some c => Command.process call c params
           | None => throw TypeError
           end
  end.
End Registry.

Definition onEvent (event : string) (cb : Listener) : M unit :=
  fun w =>
    Ok tt (mkWorld (config w) (HOOKS w ++ [mkHook event cb])%list (ports w)
             (pending w) (listeners w) (trace w)).

(** The loop of [fireHook] over the hooks still to visit. *)
Fixpoint fire (hooks : list Hook) (name : string) (data : Payload)
  : M unit :=
  match hooks with
  | [] => ret tt
  | h :: rest =>
      (if String.eqb (hook h) name then log (Deliver (callback h) data)
       else ret tt) ;;
      fire rest name data
  end.

Definition fireHook (name : string) (data : Payload) : M unit :=
  fun w => fire (HOOKS w) name data w.

End CommandManager.

Import CommandManager.

(** ** The commands *)

(** The handler functions of the six command classes. *)
Inductive Builtin : Type :=
| Help | Quit | SerialSet | SerialClose | SerialOpen | SerialWrite.

(** The loop of the help handler over [getNames(true)]; calling [toString]
    on an undefined command throws. *)
Fixpoint usage_lines (cmds : Registry Builtin) (names : list string)
  : M (list string) :=
  match names with
  | [] => ret []
  | name :: rest =>
      match getCommand cmds name with
      | Some c =>
          res <- usage_lines cmds rest ;;
          ret (("- Usage for " ++ name ++ ": " ++ Command.toString c) :: res)
      | None => throw TypeError
      end
  end.

Definition HelpHandler (cmds : Registry Builtin) (name : Value)
  (args : list string) : M unit :=
  res <- match index args 0 with
         | VStr a =>
             match getCommand cmds a with
             | Some c =>
                 ret ["Usage for " ++ a ++ ": " ++ Command.toString c]
             | None => throw TypeError
             end
         | _ =>
             match getNames cmds true with
             | Some names => usage_lines cmds names
             | None => throw TypeError
             end
         end ;;
  respond (Response.mk name 0 res).

Definition QuitHandler : M unit := exit 0.

(** The device and the flag are written before the port is constructed:
    they stay written when the constructor throws. *)
Definition SerialSetHandler (name : Value) (args : list string) : M unit :=
  modify_config (set_device (index args 0)) ;;
  modify_config (set_init true) ;;
  h <- new_SerialPort (index args 0) 9600 false ;;
  modify_config (set_port h) ;;
  fireHook "set" (PArray args) ;;
  respond (Response.mk name 0
             ["Set serial device to [" ++ show (index args 0) ++ "]"]).

Definition SerialCloseHandler (name : Value) : M unit :=
  c <- get_config ;;
  if negb (init c) || negb (ready c)
  then respond (Response.mk name 2 ["Already closed!"])
  else
    modify_config (set_ready false) ;;
    modify_config (set_init false) ;;
    port_close (port c) ;;
    fireHook "close" (PArray []) ;;
    c' <- get_config ;;
    respond (Response.mk name 0
               ["Closed serial device connection to [" ++ show (device c')
                ++ "]. Please run set and start again!"]).

(** [function (err) {...}] of the open handler; [err] is an [Error] with a
    message, or absent. *)
Definition OpenDone_body (name : Value) (args : list string)
  (err : option string) : M unit :=
  match err with
  | Some message =>
      respond (Response.mk name 1 ["Error on connection!"; message])
  | None =>
      modify_config (set_ready true) ;;
      fireHook "open" (PArray args) ;;
      c <- get_config ;;
      respond (Response.mk name 0
                 ["Connection to [" ++ show (device c) ++ "] opened!"])
  end.

Definition OnError_body (message : string) : M unit :=
  fireHook "error" (PArray [message]).

Definition OnData_body (data : string) : M unit :=
  fireHook "read" (PArray [data]).

Definition SerialOpenHandler (name : Value) (args : list string) : M unit :=
  c <- get_config ;;
  if negb (init c)
  then respond (Response.mk name 2 ["No serial device set!"])
  else if ready c
  then respond (Response.mk name 2 ["Already started!"])
  else
    port_open (port c) (OpenDone name args) ;;
    port_on (port c) "error" OnError ;;
    port_on (port c) "data" OnData.

(** [function (err) {...}] of the write handler. *)
Definition WriteDone_body (name : Value) (msg : string)
  (err : option string) : M unit :=
  match err with
  | Some message => respond (Response.mk name 1 ["Error on send!"; message])
  | None =>
      fireHook "write" (PString msg) ;;
      respond (Response.mk name 0 ["Message [" ++ msg ++ "] sent!"])
  end.

Definition SerialWriteHandler (name : Value) (args : list string) : M unit :=
  c <- get_config ;;
  if negb (init c) || negb (ready c)
  then respond (Response.mk name 2 ["Not ready!"])
  else
    let msg := String.concat " " args in
    port_write (port c) msg (WriteDone name msg).

(** Calling a handler function. *)
Definition call (cmds : Registry Builtin) (h : Builtin) (name : Value)
  (args : list string) : M unit :=
  match h with
  | Help => HelpHandler cmds name args
  | Quit => QuitHandler
  | SerialSet => SerialSetHandler name args
  | SerialClose => SerialCloseHandler name
  | SerialOpen => SerialOpenHandler name args
  | SerialWrite => SerialWriteHandler name args
  end.

(** The command objects. *)
Definition HelpCommand : Command.t Builtin :=
  Command.mk ["help"; "h"] Help [Param.mk "command" "string" false].
Definition QuitCommand : Command.t Builtin :=
  Command.mk ["quit"; "q"; "exit"] Quit [].
Definition SerialSetCommand : Command.t Builtin :=
  Command.mk ["set"] SerialSet [Param.mk "device" "string" true].
Definition SerialCloseCommand : Command.t Builtin :=
  Command.mk ["close"; "stop"] SerialClose [].
Definition SerialOpenCommand : Command.t Builtin :=
  Command.mk ["open"; "start"] SerialOpen [].
Definition SerialWriteCommand : Command.t Builtin :=
  Command.mk ["write"; "w"; "send"] SerialWrite
    [Param.mk "message" "string" true].

(** [CommandManager.COMMANDS] once the module is loaded. *)
Definition COMMANDS : Registry Builtin :=
  fold_left registerCommand
    [HelpCommand; QuitCommand; SerialSetCommand; SerialCloseCommand;
     SerialOpenCommand; SerialWriteCommand]
    [].

(** ** The program of [index.js] *)

(** The world when the first line is read: [config] as declared, its
    placeholder port constructed, the "read" listener subscribed. *)
Definition print_read : Listener := 0%nat.

Definition initial : World :=
  mkWorld (mkConfig (VStr "") false false 0%nat)
    [mkHook "read" print_read]
    1
    [] []
    [PortNew 0%nat (VStr "COM1") 0 false].

(** What can happen next: the operator enters a line, the transport calls
    back the [n]-th pending completion, or the transport raises an event on
    a port. *)
Inductive Input : Type :=
| Line (line : string)
| Completed (n : nat) (err : option string)
| PortEvent (h : Handle) (ev : string) (payload : string).

Definition complete (k : Completion) (err : option string) : M unit :=
  match k with
  | OpenDone name args => OpenDone_body name args err
  | WriteDone name msg => WriteDone_body name msg err
  end.

Fixpoint remove_nth {A} (n : nat) (l : list A) : list A :=
  match n, l with
  | _, [] => []
  | O, _ :: rest => rest
  | S n', x :: rest => x :: remove_nth n' rest
  end.

Definition take_pending (n : nat) : M (option Completion) :=
  fun w =>
    Ok (option_map snd (nth_error (pending w) n))
       (mkWorld (config w) (HOOKS w) (ports w) (remove_nth n (pending w))
          (listeners w) (trace w)).

Definition notify (k : PortListener) (payload : string) : M unit :=
  match k with
  | OnError => OnError_body payload
  | OnData => OnData_body payload
  end.

Fixpoint raise_event (ls : list (Handle * string * PortListener))
  (h : Handle) (ev : string) (payload : string) : M unit :=
  match ls with
  | [] => ret tt
  | (h', ev', k) :: rest =>
      (if Nat.eqb h' h && String.eqb ev' ev then notify k payload
       else ret tt) ;;
      raise_event rest h ev payload
  end.

Definition step (i : Input) : M unit :=
  match i with
  | Line line => CommandManager.process (call COMMANDS) COMMANDS line
  | Completed n err =>
      k <- take_pending n ;;
      match k with
      | Some k => complete k err
      | None => ret tt
      end
  | PortEvent h ev payload =>
      fun w => raise_event (listeners w) h ev payload w
  end.

Fixpoint run (inputs : list Input) : M unit :=
  match inputs with
  | [] => ret tt
  | i :: rest => step i ;; run rest
  end.

(** The connection-context invariant. *)
Definition invariant (c : Config) : Prop :=
  ready c = true -> init c = true.

(** ** Definitions used by the statements *)

(** The listeners subscribed to [name], in subscription order. *)
Definition subscribers (name : string) (hooks : list Hook) : list Listener :=
  map callback (filter (fun h => String.eqb (hook h) name) hooks).

Definition deliveries (name : string) (data : Payload) (hooks : list Hook)
  : list Event :=
  map (fun l => Deliver l data) (subscribers name hooks).

(** A sequence of [onEvent] calls. *)
Fixpoint subscribe_all (subs : list (string * Listener)) : M unit :=
  match subs with
  | [] => ret tt
  | (event, cb) :: rest => onEvent event cb ;; subscribe_all rest
  end.

Definition as_hook (s : string * Listener) : Hook := mkHook (fst s) (snd s).

Definition with_hooks (hooks : list Hook) (w : World) : World :=
  mkWorld (config w) hooks (ports w) (pending w) (listeners w) (trace w).

Section Aliases.
Context {H : Type}.
Implicit Types (cmds : Registry H).

(** Every stored command lists the key it is stored under, as after
    [registerCommand] of commands that have a name. *)
Definition well_formed cmds : Prop :=
  Forall (fun kc => includes (Command.name (snd kc)) (fst kc) = true) cmds.

(** [name] is one of the names of a registered command. *)
Definition is_alias cmds (name : string) : bool :=
  existsb (fun kc => includes (Command.name (snd kc)) name) cmds.

End Aliases.

(** The usage string in the words of the specification: a required
    parameter is [<name: type>], an optional one [[name: type]]; the aliases
    are joined with a slash, the parameters with one space, and one space
    separates the two parts. *)
Definition render_spec (p : Param.t) : string :=
  if Param.required p
  then "<" ++ Param.name p ++ ": " ++ Param.type p ++ ">"
  else "[" ++ Param.name p ++ ": " ++ Param.type p ++ "]".

Definition usage_spec (aliases : list string) (params : list Param.t)
  : string :=
  String.concat "/" aliases ++ " " ++ String.concat " " (map render_spec params).

(** The line of the help listing for one registry entry. *)
Definition usage_line {H : Type} (kc : string * Command.t H) : string :=
  "- Usage for " ++ fst kc ++ ": "
  ++ usage_spec (Command.name (snd kc)) (Command.params (snd kc)).

(** The world of an open connection to COM3, with one listener on each of
    the hooks "set", "write" and "read". *)
Definition on_set : Listener := 1%nat.
Definition on_write : Listener := 2%nat.

Definition boot : list Input :=
  [Line "set COM3"; Line "open"; Completed 0 None].

Definition opened : World :=
  mkWorld (mkConfig (VStr "COM3") true true 1%nat)
    [mkHook "read" print_read; mkHook "set" on_set; mkHook "write" on_write]
    2
    []
    [(1%nat, "error", OnError); (1%nat, "data", OnData)]
    [PortNew 0%nat (VStr "COM1") 0 false;
     PortNew 1%nat (VStr "COM3") 9600 false;
     Deliver on_set (PArray ["COM3"]);
     Respond (Response.mk (VStr "set") 0 ["Set serial device to [COM3]"]);
     PortOpen 1%nat; PortOn 1%nat "error"; PortOn 1%nat "data";
     Respond (Response.mk (VStr "open") 0 ["Connection to [COM3] opened!"])].

(** The world after [set COM3] on a fresh start. *)
Definition configured : World :=
  mkWorld (mkConfig (VStr "COM3") true false 1%nat)
    [mkHook "read" print_read]
    2
    [] []
    [PortNew 0%nat (VStr "COM1") 0 false;
     PortNew 1%nat (VStr "COM3") 9600 false;
     Respond (Response.mk (VStr "set") 0 ["Set serial device to [COM3]"])].

(** Two devices set and opened in a row, the first open completed and the
    connection closed while the second open is still under way. *)
Definition racing : World :=
  mkWorld (mkConfig (VStr "COM4") false false 2%nat)
    [mkHook "read" print_read]
    3
    [(2%nat, OpenDone (VStr "open") [])]
    [(1%nat, "error", OnError); (1%nat, "data", OnData);
     (2%nat, "error", OnError); (2%nat, "data", OnData)]
    [PortNew 0%nat (VStr "COM1") 0 false;
     PortNew 1%nat (VStr "COM3") 9600 false;
     Respond (Response.mk (VStr "set") 0 ["Set serial device to [COM3]"]);
     PortOpen 1%nat; PortOn 1%nat "error"; PortOn 1%nat "data";
     PortNew 2%nat (VStr "COM4") 9600 false;
     Respond (Response.mk (VStr "set") 0 ["Set serial device to [COM4]"]);
     PortOpen 2%nat; PortOn 2%nat "error"; PortOn 2%nat "data";
     Respond (Response.mk (VStr "open") 0 ["Connection to [COM4] opened!"]);
     PortClose 2%nat;
     Respond (Response.mk (VStr "close") 0
                ["Closed serial device connection to [COM4]. Please run set and start again!"])].

(** *** Definitions for the registry, the tokens and the runs *)

(** [c] occurs in [s]. *)
Fixpoint contains (c : ascii) (s : string) : bool :=
  match s with
  | EmptyString => false
  | String c' rest => Ascii.eqb c' c || contains c rest
  end.

(** The number of occurrences of [c] in [s]. *)
Fixpoint occurrences (c : ascii) (s : string) : nat :=
  match s with
  | EmptyString => O
  | String c' rest =>
      if Ascii.eqb c' c then S (occurrences c rest) else occurrences c rest
  end.

Section Lookup.
Context {H : Type}.
Implicit Types (cmds : Registry H).


(** Every name of every stored command, in registration order. *)
Definition aliases cmds : list string :=
  List.concat (map (fun kc => Command.name (snd kc)) cmds).

(** No name is used twice, within a command or by two commands. *)
Definition unique_aliases cmds : Prop := NoDup (aliases cmds).

End Lookup.

(** The world an outcome leaves behind. *)
Definition world_of {A} (o : Outcome A) : World :=
  match o with
  | Ok _ w => w
  | Throw _ w => w
  | Exit _ w => w
  end.

Definition is_open_callback (k : Handle * Completion) : bool :=
  match snd k with
  | OpenDone _ _ => true
  | WriteDone _ _ => false
  end.

(** An open was asked of the transport and has not completed. *)
Definition open_pending (w : World) : bool :=
  existsb is_open_callback (pending w).

(** The operator enters no line while an open is pending. *)
Fixpoint disciplined (inputs : list Input) (w : World) : bool :=
  match inputs with
  | [] => true
  | i :: rest =>
      match i with
      | Line _ => negb (open_pending w)
      | _ => true
      end
      && match step i w with
         | Ok _ w' => disciplined rest w'
         | _ => true
         end
  end.

(** The context's flags agree with the pending opens: at most one open is
    pending, and then the context is initialised and not ready. *)
Definition settled (w : World) : Prop :=
  invariant (config w)
  /\ (length (filter is_open_callback (pending w)) <= 1)%nat
  /\ (open_pending w = true ->
      init (config w) = true /\ ready (config w) = false).

(** Every handle held by the world was constructed. *)
Definition valid_handles (w : World) : Prop :=
  (port (config w) < ports w)%nat
  /\ Forall (fun k => (fst k < ports w)%nat) (pending w)
  /\ Forall (fun l => (fst (fst l) < ports w)%nat) (listeners w).

(** What one [port.on] registration publishes when its event is raised. *)
Definition published (hooks : list Hook) (payload : string)
  (l : Handle * string * PortListener) : list Event :=
  match snd l with
  | OnError => deliveries "error" (PArray [payload]) hooks
  | OnData => deliveries "read" (PArray [payload]) hooks
  end.

Definition registered (h : Handle) (ev : string)
  (l : Handle * string * PortListener) : bool :=
  Nat.eqb (fst (fst l)) h && String.eqb (snd (fst l)) ev.

(** What a step can do to the world, besides adding events to the trace:
    the shapes of the updates made by the handlers and the callbacks. *)
Inductive Effect (w : World) : Input -> World -> Prop :=
| EffEmit (i : Input) (evs : list Event) :
    Effect w i (emit evs w)
| EffSet (line : string) (path : Value) (evs : list Event) :
    hd EmptyString (split space line) = "set" ->
    Effect w (Line line)
      (mkWorld (mkConfig path true (ready (config w)) (ports w))
         (HOOKS w) (S (ports w)) (pending w) (listeners w)
         (trace w ++ evs)%list)
| EffSetThrown (line : string) (path : Value) :
    hd EmptyString (split space line) = "set" ->
    Effect w (Line line)
      (mkWorld (mkConfig path true (ready (config w)) (port (config w)))
         (HOOKS w) (ports w) (pending w) (listeners w) (trace w))
| EffClose (line : string) (evs : list Event) :
    init (config w) = true -> ready (config w) = true ->
    Effect w (Line line)
      (mkWorld (mkConfig (device (config w)) false false (port (config w)))
         (HOOKS w) (ports w) (pending w) (listeners w)
         (trace w ++ evs)%list)
| EffOpen (line : string) (name : Value) (args : list string)
    (evs : list Event) :
    init (config w) = true -> ready (config w) = false ->
    Effect w (Line line)
      (mkWorld (config w) (HOOKS w) (ports w)
         (pending w ++ [(port (config w), OpenDone name args)])%list
         (listeners w
          ++ [(port (config w), "error", OnError);
              (port (config w), "data", OnData)])%list
         (trace w ++ evs)%list)
| EffWrite (line : string) (name : Value) (msg : string)
    (evs : list Event) :
    init (config w) = true -> ready (config w) = true ->
    Effect w (Line line)
      (mkWorld (config w) (HOOKS w) (ports w)
         (pending w ++ [(port (config w), WriteDone name msg)])%list
         (listeners w) (trace w ++ evs)%list)
| EffCompleted (n : nat) (err : option string) (k : Handle * Completion)
    (c : Config) (evs : list Event) :
    nth_error (pending w) n = Some k ->
    c = config w
    \/ (is_open_callback k = true /\ c = set_ready true (config w)) ->
    Effect w (Completed n err)
      (mkWorld c (HOOKS w) (ports w) (remove_nth n (pending w))
         (listeners w) (trace w ++ evs)%list).

(** Tactics for the side conditions on a concrete registry. *)
Ltac prove_well_formed := unfold well_formed; simpl; repeat constructor.

Ltac prove_unique_aliases :=
  unfold unique_aliases, aliases; simpl;
  repeat (constructor; [simpl; intuition discriminate |]);
  constructor.

Ltac prove_stored := unfold COMMANDS; simpl; tauto.

(** ** Properties *)

(** *** The trace *)

Lemma emit_nil (w : World) : emit [] w = w.
Proof.
  destruct w; unfold emit, with_trace; simpl.
  now rewrite app_nil_r.
Qed.

Lemma emit_emit (l1 l2 : list Event) (w : World) :
  emit l2 (emit l1 w) = emit (l1 ++ l2) w.
Proof.
  unfold emit, with_trace; simpl.
  now rewrite app_assoc.
Qed.

Lemma includes_In (arr : list string) (x : string) :
  includes arr x = true <-> In x arr.
Proof.
  unfold includes. rewrite existsb_exists. split.
  - intros [y [Hy Heq]]. apply String.eqb_eq in Heq. now subst.
  - intros Hin. exists x. split; [assumption | apply String.eqb_refl].
Qed.

Lemma split_nonempty (sep : ascii) (s : string) : split sep s <> [].
Proof.
  destruct s as [| c rest]; simpl; [discriminate |].
  destruct (Ascii.eqb c sep); [discriminate |].
  destruct (split sep rest); discriminate.
Qed.

(** The empty line has one token, the empty string. *)
Lemma split_empty_line : split space "" = [""].
Proof. reflexivity. Qed.

(** *** The hook bus *)

Lemma fire_deliveries (hooks : list Hook) (name : string) (data : Payload)
  (w : World) :
  fire hooks name data w = Ok tt (emit (deliveries name data hooks) w).
Proof.
  revert w. induction hooks as [| h rest IH]; intros w.
  - simpl. unfold ret. now rewrite emit_nil.
  - unfold deliveries, subscribers in *. simpl. unfold bind.
    destruct (String.eqb (hook h) name); simpl.
    + unfold log. rewrite IH. now rewrite emit_emit.
    + unfold ret. apply IH.
Qed.

Lemma fireHook_deliveries (name : string) (data : Payload) (w : World) :
  fireHook name data w = Ok tt (emit (deliveries name data (HOOKS w)) w).
Proof. unfold fireHook. apply fire_deliveries. Qed.

Lemma subscribe_all_hooks (subs : list (string * Listener)) (w : World) :
  subscribe_all subs w
  = Ok tt (with_hooks (HOOKS w ++ map as_hook subs)%list w).
Proof.
  revert w. induction subs as [| [event cb] rest IH]; intros w.
  - simpl. unfold ret, with_hooks. rewrite app_nil_r. now destruct w.
  - simpl. unfold bind, onEvent. rewrite IH. unfold with_hooks; simpl.
    now rewrite <- app_assoc.
Qed.

Lemma subscribers_In (name : string) (hooks : list Hook) (l : Listener) :
  In l (subscribers name hooks) <-> In (mkHook name l) hooks.
Proof.
  unfold subscribers. rewrite in_map_iff. split.
  - intros [h [Hcb Hin]]. apply filter_In in Hin. destruct Hin as [Hin Hname].
    apply String.eqb_eq in Hname. destruct h; simpl in *. now subst.
  - intros Hin. exists (mkHook name l). split; [reflexivity |].
    apply filter_In. split; [assumption | apply String.eqb_refl].
Qed.

Lemma subscribers_count (name : string) (hooks : list Hook) (l : Listener) :
  length (filter (Nat.eqb l) (subscribers name hooks))
  = length (filter (fun h => String.eqb (hook h) name && Nat.eqb l (callback h))
              hooks).
Proof.
  unfold subscribers. induction hooks as [| h rest IH]; [reflexivity |].
  simpl. destruct (String.eqb (hook h) name); simpl; [| assumption].
  destruct (Nat.eqb l (callback h)); simpl; now rewrite IH.
Qed.

(** C6.  Whatever was subscribed, firing a hook calls exactly the listeners
    subscribed under the fired name, each with the payload, in subscription
    order: a listener subscribed under another name only is not called, and
    a listener subscribed several times under the name is called as many
    times. *)
Theorem fireHook_delivers_to_subscribers :
  forall (subs : list (string * Listener)) (name : string) (data : Payload)
         (w : World),
    let hooks := (HOOKS w ++ map as_hook subs)%list in
    (subscribe_all subs ;; fireHook name data) w
    = Ok tt (emit (map (fun l => Deliver l data) (subscribers name hooks))
               (with_hooks hooks w))
    /\ (forall l, In l (subscribers name hooks) <-> In (mkHook name l) hooks)
    /\ (forall l,
           length (filter (Nat.eqb l) (subscribers name hooks))
           = length (filter (fun h => String.eqb (hook h) name
                                      && Nat.eqb l (callback h)) hooks))
    /\ (forall event l,
           subscribers name [mkHook event l]
           = if String.eqb event name then [l] else [])
    /\ (forall earlier later,
           subscribers name (earlier ++ later)
           = (subscribers name earlier ++ subscribers name later)%list).
Proof.
  intros subs name data w hooks. repeat split.
  - unfold bind. rewrite subscribe_all_hooks.
    rewrite fireHook_deliveries. reflexivity.
  - apply subscribers_In.
  - apply subscribers_In.
  - apply subscribers_count.
  - intros event l. unfold subscribers. simpl.
    now destruct (String.eqb event name).
  - intros earlier later. unfold subscribers.
    now rewrite filter_app, map_app.
Qed.

(** *** Dispatch *)

Section Dispatch.
Context {H : Type}.
Implicit Types (cmds : Registry H).

Lemma getCommand_Some cmds name c :
  getCommand cmds name = Some c ->
  In c (map snd cmds) /\ In name (Command.name c).
Proof.
  unfold getCommand. intros Hget.
  destruct (find _ cmds) as [kc |] eqn:Hfind; [| discriminate].
  injection Hget as <-. apply find_some in Hfind. destruct Hfind as [Hin Hinc].
  split; [now apply in_map | now apply includes_In].
Qed.

Lemma getCommand_None cmds name :
  getCommand cmds name = None <-> is_alias cmds name = false.
Proof.
  unfold getCommand, is_alias. split.
  - intros Hget. destruct (find _ cmds) as [kc |] eqn:Hfind; [discriminate |].
    apply not_true_is_false. intros Hex. apply existsb_exists in Hex.
    destruct Hex as [kc [Hin Hinc]].
    pose proof (find_none _ _ Hfind kc Hin) as Hno. simpl in Hno. congruence.
  - intros Hex. destruct (find _ cmds) as [kc |] eqn:Hfind; [| reflexivity].
    apply find_some in Hfind. destruct Hfind as [Hin Hinc].
    assert (existsb (fun kc => includes (Command.name (snd kc)) name) cmds
            = true) as Htrue
      by (apply existsb_exists; now exists kc).
    congruence.
Qed.

Lemma getCommand_alias cmds name :
  is_alias cmds name = true -> exists c, getCommand cmds name = Some c.
Proof.
  intros Hal. destruct (getCommand cmds name) as [c |] eqn:Hget.
  - now exists c.
  - apply getCommand_None in Hget. congruence.
Qed.

Lemma well_formed_key cmds key :
  well_formed cmds -> In key (keys cmds) -> is_alias cmds key = true.
Proof.
  unfold well_formed, keys, is_alias. intros Hwf Hin.
  apply in_map_iff in Hin. destruct Hin as [kc [Hk Hin]].
  apply existsb_exists. exists kc. split; [assumption |].
  rewrite Forall_forall in Hwf. rewrite <- Hk. now apply Hwf.
Qed.

Lemma all_names_defined cmds ks :
  (forall k, In k ks -> is_alias cmds k = true) ->
  exists names, all_names cmds ks = Some names
                /\ forall n, In n names -> is_alias cmds n = true.
Proof.
  induction ks as [| k rest IH]; intros Hks.
  - exists []. split; [reflexivity | intros n []].
  - destruct IH as [names [Hnames Hal]].
    { intros k' Hin. apply Hks. now right. }
    destruct (getCommand_alias cmds k) as [c Hc].
    { apply Hks. now left. }
    exists (Command.name c ++ names)%list. split.
    + simpl. now rewrite Hc, Hnames.
    + intros n Hin. apply in_app_or in Hin. destruct Hin as [Hin | Hin].
      * apply getCommand_Some in Hc. destruct Hc as [Hreg _].
        apply in_map_iff in Hreg. destruct Hreg as [kc [Hsnd Hreg]].
        apply existsb_exists. exists kc. split; [assumption |].
        rewrite Hsnd. now apply includes_In.
      * now apply Hal.
Qed.

Lemma getNames_defined cmds :
  well_formed cmds ->
  exists names, getNames cmds false = Some names
                /\ forall n, In n names -> is_alias cmds n = true.
Proof.
  intros Hwf. unfold getNames. apply all_names_defined.
  intros k Hin. now apply well_formed_key.
Qed.

(** [assign] and [registerCommand] keep the registry well formed. *)
Lemma assign_well_formed cmds key c :
  well_formed cmds -> includes (Command.name c) key = true ->
  well_formed (assign cmds key c).
Proof.
  unfold well_formed, assign. intros Hwf Hinc.
  destruct (includes (keys cmds) key).
  - induction cmds as [| [k c'] rest IH]; simpl; [constructor |].
    inversion Hwf as [| ? ? Hhead Htail]; subst.
    destruct (String.eqb k key) eqn:Hk.
    + apply String.eqb_eq in Hk. subst. constructor; assumption.
    + constructor; [assumption | now apply IH].
  - induction cmds as [| [k c'] rest IH]; simpl.
    + constructor; [assumption | constructor].
    + inversion Hwf as [| ? ? Hhead Htail]; subst.
      destruct (precedes key k).
      * constructor; [assumption | assumption].
      * constructor; [assumption | now apply IH].
Qed.

Lemma registerCommand_well_formed cmds c :
  well_formed cmds -> Command.name c <> [] ->
  well_formed (registerCommand cmds c).
Proof.
  intros Hwf Hname. unfold registerCommand. apply assign_well_formed.
  - assumption.
  - destruct (Command.name c) as [| n rest]; [contradiction |].
    unfold index; simpl. now rewrite String.eqb_refl.
Qed.

End Dispatch.

Lemma COMMANDS_well_formed : well_formed COMMANDS.
Proof.
  unfold COMMANDS; simpl.
  repeat (apply registerCommand_well_formed; [| discriminate]).
  constructor.
Qed.

(** C2.  A line whose first token names no registered command is answered
    once, with the fixed response [{name: null, status: 1, data: ["Error: No
    Command"]}], and nothing else happens, whatever the handlers would do;
    the empty line is such a line as soon as no command is named by the
    empty string. *)
Theorem process_unknown_command :
  forall (H : Type) (handlers : H -> Value -> list string -> M unit)
         (cmds : Registry H) (line : string) (w : World),
    well_formed cmds ->
    is_alias cmds (hd EmptyString (split space line)) = false ->
    CommandManager.process handlers cmds line w
    = Ok tt (emit [Respond (Response.mk VNull 1 ["Error: No Command"])] w).
Proof.
  intros H handlers cmds line w Hwf Hunknown.
  unfold CommandManager.process.
  destruct (getNames_defined cmds Hwf) as [names [Hnames Hal]].
  rewrite Hnames.
  destruct (includes names (hd EmptyString (split space line))) eqn:Hinc.
  - apply includes_In in Hinc. apply Hal in Hinc. congruence.
  - reflexivity.
Qed.

Lemma process_unknown_command_witness :
  well_formed COMMANDS
  /\ is_alias COMMANDS (hd EmptyString (split space "")) = false
  /\ CommandManager.process (call COMMANDS) COMMANDS "" initial
     = Ok tt (emit [Respond (Response.mk VNull 1 ["Error: No Command"])]
                initial).
Proof.
  assert (well_formed COMMANDS) as Hwf
    by (unfold well_formed; simpl; repeat constructor).
  split; [exact Hwf |].
  split; [reflexivity |].
  exact (process_unknown_command Builtin (call COMMANDS) COMMANDS "" initial
           Hwf eq_refl).
Defined.

(** *** Usage strings and the help command *)

Lemma render_render_spec (p : Param.t) :
  CommandParamaters.render p = render_spec p.
Proof.
  unfold CommandParamaters.render, render_spec.
  destruct (Param.required p); reflexivity.
Qed.

Lemma toString_usage_spec {H : Type} (c : Command.t H) :
  Command.toString c = usage_spec (Command.name c) (Command.params c).
Proof.
  unfold Command.toString, usage_spec, CommandParamaters.toSting.
  rewrite (map_ext _ _ render_render_spec). reflexivity.
Qed.

(** C8.  On the built-in registry, help without argument answers with
    status 0 and one line per primary name, in registration order; the line
    of a command holds its usage string, which joins the aliases with a
    slash and the rendered parameters with spaces, a required parameter
    rendered [<name: type>] and an optional one [[name: type]]. *)
Theorem help_lists_every_primary_name :
  forall (name : Value) (w : World),
    HelpHandler COMMANDS name [] w
    = Ok tt (emit [Respond (Response.mk name 0 (map usage_line COMMANDS))] w)
    /\ CommandManager.process (call COMMANDS) COMMANDS "help" w
       = Ok tt (emit [Respond (Response.mk (VStr "help") 0
                                 (map usage_line COMMANDS))] w)
    /\ getNames COMMANDS true
       = Some ["help"; "quit"; "set"; "close"; "open"; "write"]
    /\ map usage_line COMMANDS
       = ["- Usage for help: help/h [command: string]";
          "- Usage for quit: quit/q/exit ";
          "- Usage for set: set <device: string>";
          "- Usage for close: close/stop ";
          "- Usage for open: open/start ";
          "- Usage for write: write/w/send <message: string>"]
    /\ (forall c : Command.t Builtin,
           Command.toString c
           = usage_spec (Command.name c) (Command.params c)).
Proof.
  intros name w. repeat split.
Qed.

(** C9.  Help with an argument: when the argument names a registered
    command (under any of its names) the answer is status 0 with the usage
    line of that command; when it names none, reading the usage of the
    undefined command throws, the callback is not called and no response
    exists. *)
Theorem help_with_argument :
  forall (cmds : Registry Builtin) (name : Value) (token : string)
         (rest : list string) (w : World),
    (forall c,
        getCommand cmds token = Some c ->
        HelpHandler cmds name (token :: rest) w
        = Ok tt (emit [Respond (Response.mk name 0
                                  ["Usage for " ++ token ++ ": "
                                   ++ usage_spec (Command.name c)
                                        (Command.params c)])] w))
    /\ (getCommand cmds token = None ->
        HelpHandler cmds name (token :: rest) w = Throw TypeError w)
    /\ (is_alias cmds token = true ->
        exists c, getCommand cmds token = Some c
                  /\ In c (map snd cmds) /\ In token (Command.name c))
    /\ (is_alias cmds token = false -> getCommand cmds token = None).
Proof.
  intros cmds name token rest w. repeat split.
  - intros c Hget. unfold HelpHandler, bind. simpl. rewrite Hget.
    unfold ret, respond, log. now rewrite toString_usage_spec.
  - intros Hget. unfold HelpHandler, bind. simpl. now rewrite Hget.
  - intros Hal. destruct (getCommand_alias cmds token Hal) as [c Hc].
    exists c. split; [assumption |]. now apply getCommand_Some.
  - intros Hal. now apply getCommand_None.
Qed.

Lemma help_with_argument_witness :
  getCommand COMMANDS "send" = Some SerialWriteCommand
  /\ CommandManager.process (call COMMANDS) COMMANDS "help send" initial
     = Ok tt (emit [Respond (Response.mk (VStr "help") 0
                               ["Usage for send: write/w/send <message: string>"])]
                initial)
  /\ getCommand COMMANDS "relay" = None
  /\ CommandManager.process (call COMMANDS) COMMANDS "help relay" initial
     = Throw TypeError initial.
Proof.
  pose proof (help_with_argument COMMANDS (VStr "help") "send" [] initial)
    as [Hfound _].
  pose proof (help_with_argument COMMANDS (VStr "help") "relay" [] initial)
    as [_ [Hmissing _]].
  split; [reflexivity |].
  split; [exact (Hfound SerialWriteCommand eq_refl) |].
  split; [reflexivity |].
  exact (Hmissing eq_refl).
Defined.

(** *** The connection lifecycle *)

Lemma nth_error_last {A} (l : list A) (x : A) :
  nth_error (l ++ [x]) (length l) = Some x.
Proof. induction l as [| y l IH]; simpl; [reflexivity | exact IH]. Qed.

Lemma remove_nth_last {A} (l : list A) (x : A) :
  remove_nth (length l) (l ++ [x]) = l.
Proof. induction l as [| y l IH]; simpl; [reflexivity | now rewrite IH]. Qed.

(** Running, right away, the completion registered last. *)
Lemma step_Completed_last (w : World) (h : Handle) (k : Completion)
  (err : option string) (pend : list (Handle * Completion)) :
  pending w = (pend ++ [(h, k)])%list ->
  step (Completed (length pend) err) w
  = complete k err
      (mkWorld (config w) (HOOKS w) (ports w) pend (listeners w) (trace w)).
Proof.
  intros Hpend. unfold step, bind, take_pending. rewrite Hpend.
  now rewrite nth_error_last, remove_nth_last.
Qed.

Lemma opened_reachable :
  (onEvent "set" on_set ;; onEvent "write" on_write ;; run boot) initial
  = Ok tt opened.
Proof. reflexivity. Qed.

(** The set command, on any world, when the constructor accepts the
    path. *)
Lemma SerialSetHandler_run (name : Value) (args : list string) (w : World) :
  truthy (index args 0) = true ->
  SerialSetHandler name args w
  = Ok tt
      (mkWorld (mkConfig (index args 0) true (ready (config w)) (ports w))
         (HOOKS w) (S (ports w)) (pending w) (listeners w)
         (trace w
          ++ [PortNew (ports w) (index args 0) 9600 false]
          ++ deliveries "set" (PArray args) (HOOKS w)
          ++ [Respond (Response.mk name 0
                         [("Set serial device to [" ++ show (index args 0)
                           ++ "]")%string])])%list).
Proof.
  intros Hpath.
  unfold SerialSetHandler, bind, modify_config, new_SerialPort, respond, log.
  simpl. rewrite Hpath. rewrite fireHook_deliveries.
  unfold emit, with_trace. simpl.
  now rewrite <- !app_assoc.
Qed.

(** The set command when the constructor throws: the device and [init]
    are written, nothing is published and the callback is not called. *)
Lemma SerialSetHandler_thrown (name : Value) (args : list string)
  (w : World) :
  truthy (index args 0) = false ->
  SerialSetHandler name args w
  = Throw TypeError
      (mkWorld
         (mkConfig (index args 0) true (ready (config w)) (port (config w)))
         (HOOKS w) (ports w) (pending w) (listeners w) (trace w)).
Proof.
  intros Hpath.
  unfold SerialSetHandler, bind, modify_config, new_SerialPort. simpl.
  now rewrite Hpath.
Qed.

Lemma truthy_VStr (d : string) : d <> EmptyString -> truthy (VStr d) = true.
Proof.
  intros Hd. simpl. destruct (String.eqb d EmptyString) eqn:Heq.
  - apply String.eqb_eq in Heq. contradiction.
  - reflexivity.
Qed.

(** C1 (as amended).  With a device argument that is not the empty
    string, the set command answers with status 0, stores the device, sets
    [init] to true, constructs a new transport handle bound to the device
    and makes it the port of the context, and publishes the "set" hook with
    the argument list as payload; it leaves [ready] as it was. *)
Theorem set_command :
  forall (name : Value) (args : list string) (d : string) (w : World),
    index args 0 = VStr d -> d <> EmptyString ->
    SerialSetHandler name args w
    = Ok tt
        (mkWorld (mkConfig (VStr d) true (ready (config w)) (ports w))
           (HOOKS w) (S (ports w)) (pending w) (listeners w)
           (trace w
            ++ [PortNew (ports w) (VStr d) 9600 false]
            ++ map (fun l => Deliver l (PArray args))
                 (subscribers "set" (HOOKS w))
            ++ [Respond (Response.mk name 0
                           [("Set serial device to [" ++ d
                             ++ "]")%string])])%list).
Proof.
  intros name args d w Hd Hne.
  rewrite SerialSetHandler_run by (rewrite Hd; now apply truthy_VStr).
  rewrite Hd. reflexivity.
Qed.

Lemma set_command_witness :
  index ["COM4"] 0 = VStr "COM4"
  /\ "COM4" <> EmptyString
  /\ CommandManager.process (call COMMANDS) COMMANDS "set COM4" opened
     = Ok tt
         (mkWorld (mkConfig (VStr "COM4") true true 2%nat)
            (HOOKS opened) 3 [] (listeners opened)
            (trace opened
             ++ [PortNew 2%nat (VStr "COM4") 9600 false;
                 Deliver on_set (PArray ["COM4"]);
                 Respond (Response.mk (VStr "set") 0
                            ["Set serial device to [COM4]"])])%list).
Proof.
  assert ("COM4" <> EmptyString) as Hne by discriminate.
  split; [reflexivity |]. split; [exact Hne |].
  exact (set_command (VStr "set") ["COM4"] "COM4" opened eq_refl Hne).
Defined.

(** The set command does not touch [ready]: set on an open connection
    leaves [ready] true. *)
Lemma set_command_ready_counterexample :
  ~ (forall (name : Value) (args : list string) (d : string) (w : World),
        index args 0 = VStr d ->
        exists w',
          SerialSetHandler name args w = Ok tt w'
          /\ init (config w') = true /\ ready (config w') = false).
Proof.
  intros Hclaim.
  destruct (Hclaim (VStr "set") ["COM4"] "COM4" opened eq_refl)
    as [w' [Hrun [_ Hready]]].
  rewrite SerialSetHandler_run in Hrun by reflexivity.
  injection Hrun as <-. simpl in Hready. discriminate.
Qed.

(** The set command with an empty device argument, as in the line [set ]
    that ends in a space: the constructor throws once the device and [init]
    are written, so there is no port, no hook and no answer. *)
Lemma set_command_empty_device_counterexample :
  CommandManager.process (call COMMANDS) COMMANDS "set " initial
  = Throw TypeError
      (mkWorld (mkConfig (VStr "") true false 0%nat) (HOOKS initial) 1 [] []
         (trace initial))
  /\ ~ (forall (name : Value) (args : list string) (d : string) (w : World),
          index args 0 = VStr d ->
          exists w', SerialSetHandler name args w = Ok tt w').
Proof.
  split; [reflexivity |].
  intros Hclaim.
  destruct (Hclaim (VStr "set") [""] "" initial eq_refl) as [w' Hrun].
  rewrite SerialSetHandler_thrown in Hrun by reflexivity. discriminate.
Qed.

(** C4.  The close command on a context with [init] and [ready] both true
    closes the transport, sets both flags to false, publishes the "close"
    hook and answers with status 0; in every other state it answers with
    status 2 ("Already closed!") and changes nothing of the context. *)
Theorem close_command :
  forall (name : Value) (w : World),
    (init (config w) = true -> ready (config w) = true ->
     SerialCloseHandler name w
     = Ok tt
         (mkWorld
            (mkConfig (device (config w)) false false (port (config w)))
            (HOOKS w) (ports w) (pending w) (listeners w)
            (trace w
             ++ [PortClose (port (config w))]
             ++ map (fun l => Deliver l (PArray []))
                  (subscribers "close" (HOOKS w))
             ++ [Respond (Response.mk name 0
                            [("Closed serial device connection to ["
                              ++ show (device (config w))
                              ++ "]. Please run set and start again!")%string])])%list))
    /\ (init (config w) = false \/ ready (config w) = false ->
        SerialCloseHandler name w
        = Ok tt (mkWorld (config w) (HOOKS w) (ports w) (pending w)
                   (listeners w)
                   (trace w
                    ++ [Respond (Response.mk name 2 ["Already closed!"])])%list)).
Proof.
  intros name w. split.
  - intros Hinit Hready.
    unfold SerialCloseHandler, bind, get_config. rewrite Hinit, Hready. simpl.
    unfold modify_config, port_close, log. simpl.
    rewrite fireHook_deliveries. unfold respond, log, emit, with_trace. simpl.
    now rewrite <- !app_assoc.
  - intros Hclosed.
    unfold SerialCloseHandler, bind, get_config.
    assert (negb (init (config w)) || negb (ready (config w)) = true) as ->.
    { destruct Hclosed as [-> | ->]; simpl; [reflexivity | apply orb_true_r]. }
    reflexivity.
Qed.

Lemma close_command_witness :
  init (config opened) = true /\ ready (config opened) = true
  /\ CommandManager.process (call COMMANDS) COMMANDS "stop" opened
     = Ok tt
         (mkWorld (mkConfig (VStr "COM3") false false 1%nat)
            (HOOKS opened) 2 [] (listeners opened)
            (trace opened
             ++ [PortClose 1%nat;
                 Respond (Response.mk (VStr "close") 0
                            ["Closed serial device connection to [COM3]. Please run set and start again!"])])%list)
  /\ ready (config initial) = false
  /\ CommandManager.process (call COMMANDS) COMMANDS "close" initial
     = Ok tt (emit [Respond (Response.mk (VStr "close") 2 ["Already closed!"])]
                initial).
Proof.
  destruct (close_command (VStr "close") opened) as [Hopen _].
  destruct (close_command (VStr "close") initial) as [_ Hclosed].
  split; [reflexivity |]. split; [reflexivity |].
  split; [exact (Hopen eq_refl eq_refl) |].
  split; [reflexivity |].
  exact (Hclosed (or_intror eq_refl)).
Defined.

(** The open command, by case on the flags. *)
Lemma SerialOpenHandler_unset (name : Value) (args : list string) (w : World) :
  init (config w) = false ->
  SerialOpenHandler name args w
  = Ok tt (emit [Respond (Response.mk name 2 ["No serial device set!"])] w).
Proof.
  intros Hinit. unfold SerialOpenHandler, bind, get_config.
  now rewrite Hinit.
Qed.

Lemma SerialOpenHandler_started (name : Value) (args : list string)
  (w : World) :
  init (config w) = true -> ready (config w) = true ->
  SerialOpenHandler name args w
  = Ok tt (emit [Respond (Response.mk name 2 ["Already started!"])] w).
Proof.
  intros Hinit Hready. unfold SerialOpenHandler, bind, get_config.
  now rewrite Hinit, Hready.
Qed.

Lemma SerialOpenHandler_opening (name : Value) (args : list string)
  (w : World) :
  init (config w) = true -> ready (config w) = false ->
  SerialOpenHandler name args w
  = Ok tt
      (mkWorld (config w) (HOOKS w) (ports w)
         (pending w ++ [(port (config w), OpenDone name args)])
         (listeners w
          ++ [(port (config w), "error", OnError);
              (port (config w), "data", OnData)])
         (trace w
          ++ [PortOpen (port (config w)); PortOn (port (config w)) "error";
              PortOn (port (config w)) "data"]))%list.
Proof.
  intros Hinit Hready. unfold SerialOpenHandler, bind, get_config.
  rewrite Hinit, Hready. simpl.
  unfold port_open, port_on, defer. simpl.
  now rewrite <- !app_assoc.
Qed.

Lemma OpenDone_failure (name : Value) (args : list string) (message : string)
  (w : World) :
  complete (OpenDone name args) (Some message) w
  = Ok tt (emit [Respond (Response.mk name 1
                            ["Error on connection!"; message])] w).
Proof. reflexivity. Qed.

Lemma OpenDone_success (name : Value) (args : list string) (w : World) :
  complete (OpenDone name args) None w
  = Ok tt
      (mkWorld (set_ready true (config w)) (HOOKS w) (ports w) (pending w)
         (listeners w)
         (trace w
          ++ map (fun l => Deliver l (PArray args))
               (subscribers "open" (HOOKS w))
          ++ [Respond (Response.mk name 0
                         [("Connection to [" ++ show (device (config w))
                           ++ "] opened!")%string])])%list).
Proof.
  unfold complete, OpenDone_body, bind, modify_config. simpl.
  rewrite fireHook_deliveries. unfold get_config, respond, log, emit, with_trace.
  simpl. now rewrite <- !app_assoc.
Qed.

Lemma configured_reachable : run [Line "set COM3"] initial = Ok tt configured.
Proof. reflexivity. Qed.

(** C3.  The open command answers with status 2 ("No serial device set!")
    when [init] is false and with status 2 when [ready] is already true
    ("Already started!" on an initialised context).  Otherwise it asks the
    transport to open the port and answers when the transport calls back:
    on an error with status 1 and the transport's message, the context
    unchanged, so that [ready] is still false and the state is still
    Configured; on success it sets [ready] to true, publishes the "open"
    hook and answers with status 0. *)
Theorem open_command :
  forall (name : Value) (args : list string) (w : World),
    (init (config w) = false ->
     SerialOpenHandler name args w
     = Ok tt (emit [Respond (Response.mk name 2 ["No serial device set!"])] w))
    /\ (ready (config w) = true ->
        SerialOpenHandler name args w
        = Ok tt (emit [Respond (Response.mk name 2
                                  [if init (config w) then "Already started!"
                                   else "No serial device set!"])] w))
    /\ (init (config w) = true -> ready (config w) = false ->
        forall message,
          (SerialOpenHandler name args ;;
           step (Completed (length (pending w)) (Some message))) w
          = Ok tt
              (mkWorld (config w) (HOOKS w) (ports w) (pending w)
                 (listeners w
                  ++ [(port (config w), "error", OnError);
                      (port (config w), "data", OnData)])
                 (trace w
                  ++ [PortOpen (port (config w));
                      PortOn (port (config w)) "error";
                      PortOn (port (config w)) "data";
                      Respond (Response.mk name 1
                                 ["Error on connection!"; message])]))%list)
    /\ (init (config w) = true -> ready (config w) = false ->
        (SerialOpenHandler name args ;;
         step (Completed (length (pending w)) None)) w
        = Ok tt
            (mkWorld
               (mkConfig (device (config w)) true true (port (config w)))
               (HOOKS w) (ports w) (pending w)
               (listeners w
                ++ [(port (config w), "error", OnError);
                    (port (config w), "data", OnData)])
               (trace w
                ++ [PortOpen (port (config w));
                    PortOn (port (config w)) "error";
                    PortOn (port (config w)) "data"]
                ++ map (fun l => Deliver l (PArray args))
                     (subscribers "open" (HOOKS w))
                ++ [Respond (Response.mk name 0
                               [("Connection to [" ++ show (device (config w))
                                 ++ "] opened!")%string])]))%list)
    /\ (forall message,
           complete (OpenDone name args) (Some message) w
           = Ok tt (emit [Respond (Response.mk name 1
                                     ["Error on connection!"; message])] w))
    /\ complete (OpenDone name args) None w
       = Ok tt
           (mkWorld (set_ready true (config w)) (HOOKS w) (ports w)
              (pending w) (listeners w)
              (trace w
               ++ map (fun l => Deliver l (PArray args))
                    (subscribers "open" (HOOKS w))
               ++ [Respond (Response.mk name 0
                              [("Connection to [" ++ show (device (config w))
                                ++ "] opened!")%string])])%list).
Proof.
  intros name args w. repeat apply conj.
  - apply SerialOpenHandler_unset.
  - intros Hready. destruct (init (config w)) eqn:Hinit.
    + now apply SerialOpenHandler_started.
    + now apply SerialOpenHandler_unset.
  - intros Hinit Hready message. unfold bind at 1.
    rewrite SerialOpenHandler_opening by assumption.
    erewrite step_Completed_last by reflexivity.
    rewrite OpenDone_failure. unfold emit, with_trace. simpl.
    now rewrite <- !app_assoc.
  - intros Hinit Hready. unfold bind at 1.
    rewrite SerialOpenHandler_opening by assumption.
    erewrite step_Completed_last by reflexivity.
    rewrite OpenDone_success. unfold set_ready. simpl.
    rewrite Hinit. now rewrite <- !app_assoc.
  - intros message. apply OpenDone_failure.
  - apply OpenDone_success.
Qed.

Lemma open_command_witness :
  init (config initial) = false
  /\ CommandManager.process (call COMMANDS) COMMANDS "open" initial
     = Ok tt (emit [Respond (Response.mk (VStr "open") 2
                               ["No serial device set!"])] initial)
  /\ ready (config opened) = true
  /\ CommandManager.process (call COMMANDS) COMMANDS "start" opened
     = Ok tt (emit [Respond (Response.mk (VStr "open") 2 ["Already started!"])]
                opened)
  /\ init (config configured) = true /\ ready (config configured) = false
  /\ run [Line "open"; Completed 0 (Some "Access denied")] configured
     = Ok tt
         (mkWorld (config configured) (HOOKS configured) 2 []
            [(1%nat, "error", OnError); (1%nat, "data", OnData)]
            (trace configured
             ++ [PortOpen 1%nat; PortOn 1%nat "error"; PortOn 1%nat "data";
                 Respond (Response.mk (VStr "open") 1
                            ["Error on connection!"; "Access denied"])]))%list
  /\ run [Line "open"; Completed 0 None] configured
     = Ok tt
         (mkWorld (mkConfig (VStr "COM3") true true 1%nat) (HOOKS configured)
            2 [] [(1%nat, "error", OnError); (1%nat, "data", OnData)]
            (trace configured
             ++ [PortOpen 1%nat; PortOn 1%nat "error"; PortOn 1%nat "data";
                 Respond (Response.mk (VStr "open") 0
                            ["Connection to [COM3] opened!"])]))%list.
Proof.
  destruct (open_command (VStr "open") [] initial) as [Hunset _].
  destruct (open_command (VStr "open") [] opened) as [_ [Hstarted _]].
  destruct (open_command (VStr "open") [] configured)
    as [_ [_ [Hfail [Hok _]]]].
  split; [reflexivity |]. split; [exact (Hunset eq_refl) |].
  split; [reflexivity |]. split; [exact (Hstarted eq_refl) |].
  split; [reflexivity |]. split; [reflexivity |].
  split; [exact (Hfail eq_refl eq_refl "Access denied") |].
  exact (Hok eq_refl eq_refl).
Defined.

(** The write command on a ready connection, and its completion. *)
Lemma SerialWriteHandler_ready (name : Value) (args : list string)
  (w : World) :
  init (config w) = true -> ready (config w) = true ->
  SerialWriteHandler name args w
  = Ok tt
      (mkWorld (config w) (HOOKS w) (ports w)
         (pending w
          ++ [(port (config w), WriteDone name (String.concat " " args))])
         (listeners w)
         (trace w ++ [PortWrite (port (config w)) (String.concat " " args)]))%list.
Proof.
  intros Hinit Hready. unfold SerialWriteHandler, bind, get_config.
  now rewrite Hinit, Hready.
Qed.

Lemma SerialWriteHandler_not_ready (name : Value) (args : list string)
  (w : World) :
  init (config w) = false \/ ready (config w) = false ->
  SerialWriteHandler name args w
  = Ok tt (emit [Respond (Response.mk name 2 ["Not ready!"])] w).
Proof.
  intros Hnot. unfold SerialWriteHandler, bind, get_config.
  assert (negb (init (config w)) || negb (ready (config w)) = true) as ->.
  { destruct Hnot as [-> | ->]; simpl; [reflexivity | apply orb_true_r]. }
  reflexivity.
Qed.

Lemma WriteDone_success (name : Value) (msg : string) (w : World) :
  complete (WriteDone name msg) None w
  = Ok tt
      (emit (map (fun l => Deliver l (PString msg))
               (subscribers "write" (HOOKS w))
             ++ [Respond (Response.mk name 0
                            [("Message [" ++ msg ++ "] sent!")%string])])%list
         w).
Proof.
  unfold complete, WriteDone_body, bind. rewrite fireHook_deliveries.
  unfold respond, log. now rewrite emit_emit.
Qed.

Lemma WriteDone_failure (name : Value) (msg message : string) (w : World) :
  complete (WriteDone name msg) (Some message) w
  = Ok tt (emit [Respond (Response.mk name 1 ["Error on send!"; message])] w).
Proof. reflexivity. Qed.

(** C10.  On a context with [init] and [ready] true, the write command
    with no argument is dispatched like any other: the message is the empty
    string, it is passed to the transport's write, and when the transport
    reports success the "write" hook is published with the empty message and
    the answer has status 0. *)
Theorem write_without_message :
  forall (w : World),
    init (config w) = true -> ready (config w) = true ->
    CommandManager.process (call COMMANDS) COMMANDS "write" w
    = Ok tt
        (mkWorld (config w) (HOOKS w) (ports w)
           (pending w ++ [(port (config w), WriteDone (VStr "write") "")])
           (listeners w)
           (trace w ++ [PortWrite (port (config w)) ""]))%list
    /\ run [Line "write"; Completed (length (pending w)) None] w
       = Ok tt
           (mkWorld (config w) (HOOKS w) (ports w) (pending w) (listeners w)
              (trace w
               ++ [PortWrite (port (config w)) ""]
               ++ map (fun l => Deliver l (PString ""))
                    (subscribers "write" (HOOKS w))
               ++ [Respond (Response.mk (VStr "write") 0
                              ["Message [] sent!"])]))%list.
Proof.
  intros w Hinit Hready.
  assert (CommandManager.process (call COMMANDS) COMMANDS "write" w
          = SerialWriteHandler (VStr "write") [] w) as Hdispatch
    by reflexivity.
  split.
  - rewrite Hdispatch. now apply SerialWriteHandler_ready.
  - unfold run, bind at 1. unfold step at 1. rewrite Hdispatch.
    rewrite SerialWriteHandler_ready by assumption.
    unfold bind. erewrite step_Completed_last by reflexivity.
    rewrite WriteDone_success. unfold ret, emit, with_trace. simpl.
    now rewrite <- !app_assoc.
Qed.

Lemma write_without_message_witness :
  init (config opened) = true /\ ready (config opened) = true
  /\ run [Line "write"; Completed 0 None] opened
     = Ok tt
         (emit [PortWrite 1%nat ""; Deliver on_write (PString "");
                Respond (Response.mk (VStr "write") 0 ["Message [] sent!"])]
            opened).
Proof.
  split; [reflexivity |]. split; [reflexivity |].
  exact (proj2 (write_without_message opened eq_refl eq_refl)).
Defined.

(** C5 (the code at [write a b] on an open connection).  The arguments are
    joined with one space, the joined string is written to the transport and
    the answer has status 0; the "write" hook receives the message itself,
    a string, not an array that holds it. *)
Theorem write_hook_payload_is_the_string :
  run [Line "write a b"; Completed 0 None] opened
  = Ok tt
      (emit [PortWrite 1%nat "a b"; Deliver on_write (PString "a b");
             Respond (Response.mk (VStr "write") 0 ["Message [a b] sent!"])]
         opened)
  /\ PString "a b" <> PArray ["a b"].
Proof. split; [reflexivity | discriminate]. Qed.

(** For every list of arguments, on a ready connection. *)
Lemma write_then_success (name : Value) (args : list string) (w : World) :
  init (config w) = true -> ready (config w) = true ->
  (SerialWriteHandler name args ;;
   step (Completed (length (pending w)) None)) w
  = Ok tt
      (emit ([PortWrite (port (config w)) (String.concat " " args)]
             ++ map (fun l => Deliver l (PString (String.concat " " args)))
                  (subscribers "write" (HOOKS w))
             ++ [Respond (Response.mk name 0
                            [("Message [" ++ String.concat " " args
                              ++ "] sent!")%string])])%list
         w).
Proof.
  intros Hinit Hready. unfold bind at 1.
  rewrite SerialWriteHandler_ready by assumption.
  erewrite step_Completed_last by reflexivity.
  rewrite WriteDone_success. unfold emit, with_trace. simpl.
  now rewrite <- !app_assoc.
Qed.

(** *** The invariant of the connection context *)

Lemma racing_reachable :
  run [Line "set COM3"; Line "open"; Line "set COM4"; Line "open";
       Completed 0 None; Line "close"] initial
  = Ok tt racing.
Proof. reflexivity. Qed.

Lemma invariant_initial : invariant (config initial).
Proof. unfold invariant. simpl. discriminate. Qed.

Lemma invariant_emit (evs : list Event) (w : World) :
  invariant (config w) -> invariant (config (emit evs w)).
Proof. intros Hinv. exact Hinv. Qed.

Lemma SerialCloseHandler_config (name : Value) (w : World) :
  exists w',
    SerialCloseHandler name w = Ok tt w'
    /\ (config w' = config w
        \/ (init (config w') = false /\ ready (config w') = false)).
Proof.
  unfold SerialCloseHandler, bind, get_config.
  destruct (negb (init (config w)) || negb (ready (config w))).
  - eexists. split; [reflexivity | now left].
  - unfold modify_config, port_close, log. simpl.
    rewrite fireHook_deliveries. eexists. split; [reflexivity | now right].
Qed.

Lemma SerialOpenHandler_config (name : Value) (args : list string)
  (w : World) :
  exists w', SerialOpenHandler name args w = Ok tt w' /\ config w' = config w.
Proof.
  destruct (init (config w)) eqn:Hinit; [destruct (ready (config w)) eqn:Hready |].
  - rewrite SerialOpenHandler_started by assumption. now eexists.
  - rewrite SerialOpenHandler_opening by assumption. now eexists.
  - rewrite SerialOpenHandler_unset by assumption. now eexists.
Qed.

Lemma SerialWriteHandler_config (name : Value) (args : list string)
  (w : World) :
  exists w', SerialWriteHandler name args w = Ok tt w' /\ config w' = config w.
Proof.
  unfold SerialWriteHandler, bind, get_config.
  destruct (negb (init (config w)) || negb (ready (config w)));
    now eexists.
Qed.

(** C7 (as amended).  The invariant [ready = true -> init = true] holds
    when the program starts and is kept by the set, open, close and write
    handlers in every branch, by the completion of a write, and by the
    completion of an open that failed; the completion of an open that
    succeeded keeps it when [init] is true at the moment it runs.  The set
    handler returns when its device argument is not empty and otherwise
    leaves by the exception of the port constructor; it keeps the invariant
    on both ways out. *)
Theorem invariant_preserved :
  forall (w : World),
    invariant (config w) ->
    invariant (config initial)
    /\ (forall name args d,
           index args 0 = VStr d -> d <> EmptyString ->
           exists w', SerialSetHandler name args w = Ok tt w'
                      /\ invariant (config w'))
    /\ (forall name args,
           exists w', (SerialSetHandler name args w = Ok tt w'
                       \/ SerialSetHandler name args w = Throw TypeError w')
                      /\ invariant (config w'))
    /\ (forall name args,
           exists w', SerialOpenHandler name args w = Ok tt w'
                      /\ invariant (config w'))
    /\ (forall name,
           exists w', SerialCloseHandler name w = Ok tt w'
                      /\ invariant (config w'))
    /\ (forall name args,
           exists w', SerialWriteHandler name args w = Ok tt w'
                      /\ invariant (config w'))
    /\ (forall name msg err,
           exists w', complete (WriteDone name msg) err w = Ok tt w'
                      /\ invariant (config w'))
    /\ (forall name args message,
           exists w', complete (OpenDone name args) (Some message) w = Ok tt w'
                      /\ invariant (config w'))
    /\ (forall name args,
           init (config w) = true ->
           exists w', complete (OpenDone name args) None w = Ok tt w'
                      /\ invariant (config w')).
Proof.
  intros w Hinv. repeat apply conj.
  - exact invariant_initial.
  - intros name args d Hd Hne.
    rewrite SerialSetHandler_run by (rewrite Hd; now apply truthy_VStr).
    eexists. split; [reflexivity |]. unfold invariant. reflexivity.
  - intros name args. destruct (truthy (index args 0)) eqn:Hpath.
    + rewrite SerialSetHandler_run by assumption. eexists.
      split; [left; reflexivity |]. unfold invariant. reflexivity.
    + rewrite SerialSetHandler_thrown by assumption. eexists.
      split; [right; reflexivity |]. unfold invariant. reflexivity.
  - intros name args.
    destruct (SerialOpenHandler_config name args w) as [w' [Hrun Hcfg]].
    exists w'. split; [assumption | now rewrite Hcfg].
  - intros name.
    destruct (SerialCloseHandler_config name w) as [w' [Hrun Hcfg]].
    exists w'. split; [assumption |].
    destruct Hcfg as [Hcfg | [_ Hready]].
    + now rewrite Hcfg.
    + unfold invariant. rewrite Hready. discriminate.
  - intros name args.
    destruct (SerialWriteHandler_config name args w) as [w' [Hrun Hcfg]].
    exists w'. split; [assumption | now rewrite Hcfg].
  - intros name msg [message |].
    + rewrite WriteDone_failure. eexists.
      split; [reflexivity | now apply invariant_emit].
    + rewrite WriteDone_success. eexists.
      split; [reflexivity | now apply invariant_emit].
  - intros name args message. rewrite OpenDone_failure. eexists.
    split; [reflexivity | now apply invariant_emit].
  - intros name args Hinit. rewrite OpenDone_success. eexists.
    split; [reflexivity |]. unfold invariant. simpl. now intros _.
Qed.

Lemma invariant_preserved_witness :
  invariant (config configured)
  /\ init (config configured) = true
  /\ (exists w',
         SerialCloseHandler (VStr "close") configured = Ok tt w'
         /\ invariant (config w'))
  /\ (exists w',
         complete (OpenDone (VStr "open") []) None configured = Ok tt w'
         /\ invariant (config w')).
Proof.
  assert (invariant (config configured)) as Hinv
    by (unfold invariant; simpl; discriminate).
  destruct (invariant_preserved configured Hinv)
    as [_ [_ [_ [_ [Hclose [_ [_ [_ Hdone]]]]]]]].
  split; [exact Hinv |]. split; [reflexivity |].
  split; [exact (Hclose (VStr "close")) |].
  exact (Hdone (VStr "open") [] eq_refl).
Defined.

(** An open that completes after the connection was closed sets [ready]
    on a context whose [init] is false. *)
Lemma open_completion_counterexample :
  ~ (forall (w w' : World) (n : nat) (err : option string),
        invariant (config w) ->
        step (Completed n err) w = Ok tt w' ->
        invariant (config w')).
Proof.
  intros Hclaim.
  assert (invariant (config racing)) as Hinv
    by (unfold invariant; simpl; discriminate).
  specialize (Hclaim racing _ 0%nat None Hinv eq_refl).
  unfold invariant in Hclaim. simpl in Hclaim.
  specialize (Hclaim eq_refl). discriminate.
Qed.

(** ** Further properties of the engine *)

(** *** Tokens *)

Lemma concat_cons_nonempty (sep x : string) (xs : list string) :
  xs <> [] -> String.concat sep (x :: xs) = x ++ sep ++ String.concat sep xs.
Proof. destruct xs; [contradiction | reflexivity]. Qed.

Lemma concat_split (sep : ascii) (s : string) :
  String.concat (String sep EmptyString) (split sep s) = s.
Proof.
  induction s as [| c rest IH]; [reflexivity |].
  simpl. destruct (Ascii.eqb c sep) eqn:Hc.
  - apply Ascii.eqb_eq in Hc. subst c.
    rewrite concat_cons_nonempty by apply split_nonempty.
    simpl. now rewrite IH.
  - pose proof (split_nonempty sep rest) as Hne.
    destruct (split sep rest) as [| tok toks]; [contradiction |].
    rewrite <- IH. destruct toks; reflexivity.
Qed.

(** X1.  Joining the tokens of a line with the separator gives the line
    back: [split] loses nothing, repeated and trailing separators
    included. *)
Theorem split_join (sep : ascii) (s : string) :
  String.concat (String sep EmptyString) (split sep s) = s.
Proof.
  induction s as [| c rest IH]; [reflexivity |].
  simpl. destruct (Ascii.eqb c sep) eqn:Hc.
  - apply Ascii.eqb_eq in Hc. subst c.
    rewrite concat_cons_nonempty by apply split_nonempty.
    simpl. now rewrite IH.
  - pose proof (split_nonempty sep rest) as Hne.
    destruct (split sep rest) as [| tok toks]; [contradiction |].
    rewrite <- IH. destruct toks; reflexivity.
Qed.

(** X2.  No token holds the separator, and a line with [n] separators has
    [n + 1] tokens. *)
Theorem split_tokens (sep : ascii) (s : string) :
  Forall (fun tok => contains sep tok = false) (split sep s)
  /\ length (split sep s) = S (occurrences sep s).
Proof.
  induction s as [| c rest [IHtok IHlen]]; simpl.
  - split; [repeat constructor | reflexivity].
  - destruct (Ascii.eqb c sep) eqn:Hc.
    + split; [constructor; [reflexivity | assumption] |].
      simpl. now f_equal.
    + destruct (split sep rest) as [| tok toks]; [discriminate |].
      inversion IHtok as [| ? ? Htok Htoks]; subst.
      split; [| assumption].
      constructor; [| assumption]. simpl. now rewrite Hc.
Qed.

Lemma split_first_token (sep : ascii) (tok rest : string) :
  contains sep tok = false ->
  split sep (tok ++ String sep rest) = tok :: split sep rest.
Proof.
  induction tok as [| c tok IH]; intros Hno; simpl.
  - now rewrite Ascii.eqb_refl.
  - simpl in Hno. apply orb_false_elim in Hno. destruct Hno as [Hc Hno].
    rewrite Hc. now rewrite IH.
Qed.

Lemma split_single_token (sep : ascii) (tok : string) :
  contains sep tok = false -> split sep tok = [tok].
Proof.
  induction tok as [| c tok IH]; intros Hno; simpl; [reflexivity |].
  simpl in Hno. apply orb_false_elim in Hno. destruct Hno as [Hc Hno].
  rewrite Hc. now rewrite IH.
Qed.

(** *** The registry *)

Lemma NoDup_app_disjoint {A} (l1 l2 : list A) (x : A) :
  NoDup (l1 ++ l2) -> In x l1 -> ~ In x l2.
Proof.
  induction l1 as [| y l1 IH]; intros Hnd Hin1 Hin2; [contradiction |].
  simpl in Hnd. inversion Hnd as [| ? ? Hnotin Hnd']; subst.
  destruct Hin1 as [-> | Hin1].
  - apply Hnotin. apply in_or_app. now right.
  - now apply (IH Hnd' Hin1).
Qed.

Lemma NoDup_app_right {A} (l1 l2 : list A) : NoDup (l1 ++ l2) -> NoDup l2.
Proof.
  induction l1 as [| y l1 IH]; intros Hnd; [assumption |].
  inversion Hnd; subst. now apply IH.
Qed.

Section RegistryFacts.
Context {H : Type}.
Implicit Types (cmds : Registry H) (c : Command.t H).

Lemma aliases_In cmds key c a :
  In (key, c) cmds -> In a (Command.name c) -> In a (aliases cmds).
Proof.
  intros Hin Ha. unfold aliases. apply in_concat.
  exists (Command.name c). split; [| assumption].
  apply in_map_iff. now exists (key, c).
Qed.

Lemma includes_aliases cmds (x : string) :
  includes (aliases cmds) x = is_alias cmds x.
Proof.
  unfold aliases, is_alias, includes.
  induction cmds as [| kc rest IH]; [reflexivity |].
  simpl. rewrite existsb_app. now rewrite IH.
Qed.

Lemma getCommand_unique cmds key c a :
  unique_aliases cmds ->
  In (key, c) cmds -> In a (Command.name c) ->
  getCommand cmds a = Some c.
Proof.
  unfold unique_aliases, aliases, getCommand.
  induction cmds as [| [k0 c0] rest IH]; intros Hnd Hin Ha; [contradiction |].
  simpl in *. destruct Hin as [Heq | Hin].
  - injection Heq as -> ->.
    apply includes_In in Ha. now rewrite Ha.
  - destruct (includes (Command.name c0) a) eqn:Hinc.
    + apply includes_In in Hinc. exfalso.
      apply (NoDup_app_disjoint _ _ a Hnd Hinc).
      now apply (aliases_In rest key c).
    + apply IH; [now apply NoDup_app_right in Hnd | assumption | assumption].
Qed.

(** X4.  When no name is used twice, every name of a stored command
    resolves to that command. *)
Theorem getCommand_resolves_every_alias cmds key c a :
  unique_aliases cmds ->
  In (key, c) cmds -> In a (Command.name c) ->
  getCommand cmds a = Some c.
Proof.
  unfold unique_aliases, aliases, getCommand.
  induction cmds as [| [k0 c0] rest IH]; intros Hnd Hin Ha; [contradiction |].
  simpl in *. destruct Hin as [Heq | Hin].
  - injection Heq as -> ->.
    apply includes_In in Ha. now rewrite Ha.
  - destruct (includes (Command.name c0) a) eqn:Hinc.
    + apply includes_In in Hinc. exfalso.
      apply (NoDup_app_disjoint _ _ a Hnd Hinc).
      now apply (aliases_In rest key c).
    + apply IH; [now apply NoDup_app_right in Hnd | assumption | assumption].
Qed.

Lemma all_names_aliases cmds (sub : Registry H) :
  well_formed cmds -> unique_aliases cmds ->
  (forall kc, In kc sub -> In kc cmds) ->
  all_names cmds (keys sub) = Some (aliases sub).
Proof.
  intros Hwf Hnd. induction sub as [| [k c] rest IH]; intros Hsub.
  - reflexivity.
  - simpl.
    assert (In (k, c) cmds) as Hin by (apply Hsub; now left).
    assert (In k (Command.name c)) as Hk.
    { unfold well_formed in Hwf. rewrite Forall_forall in Hwf.
      apply includes_In. exact (Hwf (k, c) Hin). }
    rewrite (getCommand_unique cmds k c k Hnd Hin Hk).
    rewrite IH by (intros kc Hkc; apply Hsub; now right).
    reflexivity.
Qed.

(** X5.  On a registry listed as [Object.keys] lists it (array-index keys
    first and ascending, then the other keys in registration order),
    [getNames(true)] is that list of keys; when moreover every command is
    stored under one of its names and no name is used twice, [getNames()]
    does not throw and is the list of all names of all commands, command
    after command in that same order. *)
Theorem getNames_lists_all_aliases cmds :
  key_ordered (keys cmds) = true ->
  well_formed cmds -> unique_aliases cmds ->
  getNames cmds true = Some (map fst cmds)
  /\ getNames cmds false
     = Some (List.concat (map (fun kc => Command.name (snd kc)) cmds)).
Proof.
  intros _ Hwf Hnd. split; [reflexivity |].
  unfold getNames. now apply all_names_aliases.
Qed.

Lemma process_resolved (handlers : H -> Value -> list string -> M unit)
  cmds (line : string) (w : World) :
  well_formed cmds -> unique_aliases cmds ->
  CommandManager.process handlers cmds line w
  = match getCommand cmds (hd EmptyString (split space line)) with
    | Some c =>
        handlers (Command.handler c) (index (Command.name c) 0)
          (tl (split space line)) w
    | None => respond Command.ERR_NOCMD w
    end.
Proof.
  intros Hwf Hnd. unfold CommandManager.process.
  assert (getNames cmds false = Some (aliases cmds)) as ->
    by (unfold getNames; now apply all_names_aliases).
  rewrite includes_aliases.
  destruct (getCommand cmds (hd EmptyString (split space line)))
    as [c |] eqn:Hget.
  - destruct (is_alias cmds (hd EmptyString (split space line))) eqn:Hal.
    + reflexivity.
    + apply getCommand_None in Hal. congruence.
  - apply getCommand_None in Hget. now rewrite Hget.
Qed.

(** X7.  A line whose first token is any of the names of a stored command
    calls the handler of that command with the command's first name and
    the remaining tokens, whichever name was typed. *)
Theorem process_dispatches_by_alias
  (handlers : H -> Value -> list string -> M unit) cmds key c
  (line : string) (w : World) :
  well_formed cmds -> unique_aliases cmds ->
  In (key, c) cmds ->
  In (hd EmptyString (split space line)) (Command.name c) ->
  CommandManager.process handlers cmds line w
  = handlers (Command.handler c) (index (Command.name c) 0)
      (tl (split space line)) w.
Proof.
  intros Hwf Hnd Hin Htok. rewrite process_resolved by assumption.
  now rewrite (getCommand_unique cmds key c _ Hnd Hin Htok).
Qed.















End RegistryFacts.

Lemma COMMANDS_unique_aliases : unique_aliases COMMANDS.
Proof.
  unfold unique_aliases, aliases. simpl.
  repeat (constructor; [simpl; intuition discriminate |]).
  constructor.
Qed.

Lemma getCommand_resolves_every_alias_witness :
  unique_aliases COMMANDS
  /\ In ("write", SerialWriteCommand) COMMANDS
  /\ In "send" (Command.name SerialWriteCommand)
  /\ getCommand COMMANDS "send" = Some SerialWriteCommand.
Proof.
  assert (unique_aliases COMMANDS) as Hnd by prove_unique_aliases.
  assert (In ("write", SerialWriteCommand) COMMANDS) as Hin by prove_stored.
  assert (In "send" (Command.name SerialWriteCommand)) as Ha
    by (simpl; tauto).
  split; [exact Hnd |]. split; [exact Hin |]. split; [exact Ha |].
  exact (getCommand_resolves_every_alias COMMANDS "write" SerialWriteCommand
           "send" Hnd Hin Ha).
Defined.

Lemma getNames_lists_all_aliases_witness :
  key_ordered
    (keys (registerCommand COMMANDS (Command.mk ["7"; "seven"] Quit [])))
  = true
  /\ well_formed (registerCommand COMMANDS (Command.mk ["7"; "seven"] Quit []))
  /\ unique_aliases
       (registerCommand COMMANDS (Command.mk ["7"; "seven"] Quit []))
  /\ getNames (registerCommand COMMANDS (Command.mk ["7"; "seven"] Quit []))
       true
     = Some ["7"; "help"; "quit"; "set"; "close"; "open"; "write"]
  /\ getNames (registerCommand COMMANDS (Command.mk ["7"; "seven"] Quit []))
       false
     = Some ["7"; "seven"; "help"; "h"; "quit"; "q"; "exit"; "set"; "close";
             "stop"; "open"; "start"; "write"; "w"; "send"].
Proof.
  assert (well_formed
            (registerCommand COMMANDS (Command.mk ["7"; "seven"] Quit [])))
    as Hwf by (unfold well_formed; vm_compute; repeat constructor).
  assert (unique_aliases
            (registerCommand COMMANDS (Command.mk ["7"; "seven"] Quit [])))
    as Hnd.
  { unfold unique_aliases.
    change (NoDup ["7"; "seven"; "help"; "h"; "quit"; "q"; "exit"; "set";
                   "close"; "stop"; "open"; "start"; "write"; "w"; "send"]).
    repeat (constructor; [simpl; intuition discriminate |]). constructor. }
  split; [reflexivity |]. split; [exact Hwf |]. split; [exact Hnd |].
  exact (getNames_lists_all_aliases
           (registerCommand COMMANDS (Command.mk ["7"; "seven"] Quit []))
           eq_refl Hwf Hnd).
Defined.

Lemma process_dispatches_by_alias_witness :
  well_formed COMMANDS /\ unique_aliases COMMANDS
  /\ In ("close", SerialCloseCommand) COMMANDS
  /\ In (hd EmptyString (split space "stop now"))
       (Command.name SerialCloseCommand)
  /\ CommandManager.process (call COMMANDS) COMMANDS "stop now" initial
     = SerialCloseHandler (VStr "close") initial.
Proof.
  assert (well_formed COMMANDS) as Hwf by prove_well_formed.
  assert (unique_aliases COMMANDS) as Hnd by prove_unique_aliases.
  assert (In ("close", SerialCloseCommand) COMMANDS) as Hin by prove_stored.
  assert (In (hd EmptyString (split space "stop now"))
            (Command.name SerialCloseCommand)) as Htok
    by (simpl; tauto).
  split; [exact Hwf |]. split; [exact Hnd |].
  split; [exact Hin |]. split; [exact Htok |].
  exact (process_dispatches_by_alias (call COMMANDS) COMMANDS "close"
           SerialCloseCommand "stop now" initial Hwf Hnd Hin Htok).
Defined.


(** *** The help listing, on any registry *)

Lemma usage_lines_stored (cmds sub : Registry Builtin) (w : World) :
  unique_aliases cmds -> well_formed cmds ->
  (forall kc, In kc sub -> In kc cmds) ->
  usage_lines cmds (keys sub) w = Ok (map usage_line sub) w.
Proof.
  intros Hnd Hwf. induction sub as [| [k c] rest IH]; intros Hsub.
  - reflexivity.
  - simpl.
    assert (In (k, c) cmds) as Hin by (apply Hsub; now left).
    assert (In k (Command.name c)) as Hk.
    { unfold well_formed in Hwf. rewrite Forall_forall in Hwf.
      apply includes_In. exact (Hwf (k, c) Hin). }
    rewrite (getCommand_unique cmds k c k Hnd Hin Hk).
    unfold bind. rewrite IH by (intros kc Hkc; apply Hsub; now right).
    unfold ret, usage_line. simpl. now rewrite toString_usage_spec.
Qed.

(** X8.  On any registry listed as [Object.keys] lists it, whose commands
    are stored under one of their names, no name used twice, help without
    argument does not throw: it answers with status 0 and one line per
    stored command in the order of [Object.keys] (array-index keys first and
    ascending, then the other keys in registration order), the line of a key
    holding the usage of the command stored under it. *)
Theorem help_lists_any_registry :
  forall (cmds : Registry Builtin) (name : Value) (w : World),
    key_ordered (keys cmds) = true ->
    well_formed cmds -> unique_aliases cmds ->
    HelpHandler cmds name [] w
    = Ok tt (emit [Respond (Response.mk name 0 (map usage_line cmds))] w).
Proof.
  intros cmds name w _ Hwf Hnd. unfold HelpHandler, bind. simpl.
  rewrite (usage_lines_stored cmds cmds w Hnd Hwf) by tauto.
  reflexivity.
Qed.

Lemma help_lists_any_registry_witness :
  key_ordered
    (keys (registerCommand
             (registerCommand [("set", SerialSetCommand)] QuitCommand)
             (Command.mk ["7"; "seven"] SerialClose [])))
  = true
  /\ well_formed
       (registerCommand
          (registerCommand [("set", SerialSetCommand)] QuitCommand)
          (Command.mk ["7"; "seven"] SerialClose []))
  /\ unique_aliases
       (registerCommand
          (registerCommand [("set", SerialSetCommand)] QuitCommand)
          (Command.mk ["7"; "seven"] SerialClose []))
  /\ HelpHandler
       (registerCommand
          (registerCommand [("set", SerialSetCommand)] QuitCommand)
          (Command.mk ["7"; "seven"] SerialClose []))
       (VStr "help") [] initial
     = Ok tt (emit [Respond (Response.mk (VStr "help") 0
                               ["- Usage for 7: 7/seven ";
                                "- Usage for set: set <device: string>";
                                "- Usage for quit: quit/q/exit "])]
                initial).
Proof.
  assert (well_formed
            (registerCommand
               (registerCommand [("set", SerialSetCommand)] QuitCommand)
               (Command.mk ["7"; "seven"] SerialClose [])))
    as Hwf by (unfold well_formed; vm_compute; repeat constructor).
  assert (unique_aliases
            (registerCommand
               (registerCommand [("set", SerialSetCommand)] QuitCommand)
               (Command.mk ["7"; "seven"] SerialClose [])))
    as Hnd.
  { unfold unique_aliases.
    change (NoDup ["7"; "seven"; "set"; "quit"; "q"; "exit"]).
    repeat (constructor; [simpl; intuition discriminate |]). constructor. }
  split; [reflexivity |]. split; [exact Hwf |]. split; [exact Hnd |].
  exact (help_lists_any_registry
           (registerCommand
              (registerCommand [("set", SerialSetCommand)] QuitCommand)
              (Command.mk ["7"; "seven"] SerialClose []))
           (VStr "help") initial eq_refl Hwf Hnd).
Defined.

(** *** Dispatch on the built-in registry *)

Lemma process_COMMANDS (line : string) (w : World) :
  CommandManager.process (call COMMANDS) COMMANDS line w
  = match getCommand COMMANDS (hd EmptyString (split space line)) with
    | Some c =>
        call COMMANDS (Command.handler c) (index (Command.name c) 0)
          (tl (split space line)) w
    | None => respond Command.ERR_NOCMD w
    end.
Proof.
  apply process_resolved;
    [exact COMMANDS_well_formed | exact COMMANDS_unique_aliases].
Qed.

(** X9.  A line whose first token is [quit], [q] or [exit] ends the
    process with exit code 0, whatever follows the token: the callback is
    not called and nothing else happens. *)
Theorem quit_exits :
  forall (line : string) (w : World),
    In (hd EmptyString (split space line)) ["quit"; "q"; "exit"] ->
    CommandManager.process (call COMMANDS) COMMANDS line w = Exit 0 w.
Proof.
  intros line w Htok. rewrite process_COMMANDS.
  simpl in Htok. destruct Htok as [<- | [<- | [<- | []]]]; reflexivity.
Qed.

Lemma quit_exits_witness :
  In (hd EmptyString (split space "exit now please")) ["quit"; "q"; "exit"]
  /\ CommandManager.process (call COMMANDS) COMMANDS "exit now please" opened
     = Exit 0 opened.
Proof.
  assert (In (hd EmptyString (split space "exit now please"))
            ["quit"; "q"; "exit"]) as Htok by (simpl; tauto).
  split; [exact Htok |].
  exact (quit_exits "exit now please" opened Htok).
Defined.

(** X3.  On a ready connection, [write], [w] or [send] followed by one
    space and any text passes exactly that text to the transport, with its
    spaces as typed, and keeps it for the completion callback. *)
Theorem write_sends_rest_of_line :
  forall (alias text : string) (w : World),
    In alias ["write"; "w"; "send"] ->
    init (config w) = true -> ready (config w) = true ->
    CommandManager.process (call COMMANDS) COMMANDS (alias ++ " " ++ text) w
    = Ok tt
        (mkWorld (config w) (HOOKS w) (ports w)
           (pending w ++ [(port (config w), WriteDone (VStr "write") text)])
           (listeners w)
           (trace w ++ [PortWrite (port (config w)) text]))%list.
Proof.
  intros alias text w Halias Hinit Hready. rewrite process_COMMANDS.
  change (" " ++ text) with (String space text).
  assert (contains space alias = false
          /\ getCommand COMMANDS alias = Some SerialWriteCommand)
    as [Hno Hget].
  { simpl in Halias.
    destruct Halias as [<- | [<- | [<- | []]]]; split; reflexivity. }
  rewrite (split_first_token space alias text Hno). simpl hd. simpl tl.
  rewrite Hget. simpl.
  rewrite SerialWriteHandler_ready by assumption.
  change " " with (String space EmptyString).
  now rewrite concat_split.
Qed.

Lemma write_sends_rest_of_line_witness :
  In "send" ["write"; "w"; "send"]
  /\ init (config opened) = true /\ ready (config opened) = true
  /\ CommandManager.process (call COMMANDS) COMMANDS "send AT  +CSQ " opened
     = Ok tt
         (mkWorld (config opened) (HOOKS opened) 2
            [(1%nat, WriteDone (VStr "write") "AT  +CSQ ")]
            (listeners opened)
            (trace opened ++ [PortWrite 1%nat "AT  +CSQ "]))%list.
Proof.
  assert (In "send" ["write"; "w"; "send"]) as Halias by (simpl; tauto).
  split; [exact Halias |]. split; [reflexivity |]. split; [reflexivity |].
  exact (write_sends_rest_of_line "send" "AT  +CSQ " opened Halias
           eq_refl eq_refl).
Defined.

(** *** The write and close commands, error branches *)

Lemma SerialCloseHandler_open (name : Value) (w : World) :
  init (config w) = true -> ready (config w) = true ->
  SerialCloseHandler name w
  = Ok tt
      (mkWorld (mkConfig (device (config w)) false false (port (config w)))
         (HOOKS w) (ports w) (pending w) (listeners w)
         (trace w
          ++ [PortClose (port (config w))]
          ++ deliveries "close" (PArray []) (HOOKS w)
          ++ [Respond (Response.mk name 0
                         [("Closed serial device connection to ["
                           ++ show (device (config w))
                           ++ "]. Please run set and start again!")%string])])%list).
Proof.
  intros Hinit Hready.
  unfold SerialCloseHandler, bind, get_config. rewrite Hinit, Hready. simpl.
  unfold modify_config, port_close, log. simpl.
  rewrite fireHook_deliveries. unfold respond, log, emit, with_trace. simpl.
  now rewrite <- !app_assoc.
Qed.

Lemma SerialCloseHandler_closed (name : Value) (w : World) :
  init (config w) = false \/ ready (config w) = false ->
  SerialCloseHandler name w
  = Ok tt (emit [Respond (Response.mk name 2 ["Already closed!"])] w).
Proof.
  intros Hclosed. unfold SerialCloseHandler, bind, get_config.
  assert (negb (init (config w)) || negb (ready (config w)) = true) as ->.
  { destruct Hclosed as [-> | ->]; simpl; [reflexivity | apply orb_true_r]. }
  reflexivity.
Qed.

(** X10.  The write command on a context that is not initialised or not
    ready answers with status 2 ("Not ready!") and asks nothing of the
    transport; a write that the transport reports as failed answers with
    status 1 and the transport's message, publishes no hook and leaves the
    context as it is. *)
Theorem write_error_branches :
  forall (name : Value) (args : list string) (w : World),
    (init (config w) = false \/ ready (config w) = false ->
     SerialWriteHandler name args w
     = Ok tt (emit [Respond (Response.mk name 2 ["Not ready!"])] w))
    /\ (init (config w) = true -> ready (config w) = true ->
        forall message,
          (SerialWriteHandler name args ;;
           step (Completed (length (pending w)) (Some message))) w
          = Ok tt
              (emit [PortWrite (port (config w)) (String.concat " " args);
                     Respond (Response.mk name 1 ["Error on send!"; message])]
                 w)).
Proof.
  intros name args w. split.
  - apply SerialWriteHandler_not_ready.
  - intros Hinit Hready message. unfold bind at 1.
    rewrite SerialWriteHandler_ready by assumption.
    erewrite step_Completed_last by reflexivity.
    rewrite WriteDone_failure. unfold emit, with_trace. simpl.
    now rewrite <- !app_assoc.
Qed.

Lemma write_error_branches_witness :
  ready (config configured) = false
  /\ CommandManager.process (call COMMANDS) COMMANDS "w hello" configured
     = Ok tt (emit [Respond (Response.mk (VStr "write") 2 ["Not ready!"])]
                configured)
  /\ init (config opened) = true /\ ready (config opened) = true
  /\ run [Line "w hello"; Completed 0 (Some "Port is not open")] opened
     = Ok tt
         (emit [PortWrite 1%nat "hello";
                Respond (Response.mk (VStr "write") 1
                           ["Error on send!"; "Port is not open"])]
            opened).
Proof.
  destruct (write_error_branches (VStr "write") ["hello"] configured)
    as [Hnot _].
  destruct (write_error_branches (VStr "write") ["hello"] opened)
    as [_ Hfail].
  split; [reflexivity |]. split; [exact (Hnot (or_intror eq_refl)) |].
  split; [reflexivity |]. split; [reflexivity |].
  exact (Hfail eq_refl eq_refl "Port is not open").
Defined.

(** X11.  Once a close has succeeded the context is back to not
    initialised: a following open, write or close is refused with status 2
    and changes nothing of the context, so that only set leads on. *)
Theorem after_close_only_set :
  forall (w : World),
    init (config w) = true -> ready (config w) = true ->
    exists w',
      CommandManager.process (call COMMANDS) COMMANDS "close" w = Ok tt w'
      /\ config w'
         = mkConfig (device (config w)) false false (port (config w))
      /\ CommandManager.process (call COMMANDS) COMMANDS "open" w'
         = Ok tt (emit [Respond (Response.mk (VStr "open") 2
                                   ["No serial device set!"])] w')
      /\ CommandManager.process (call COMMANDS) COMMANDS "write" w'
         = Ok tt (emit [Respond (Response.mk (VStr "write") 2
                                   ["Not ready!"])] w')
      /\ CommandManager.process (call COMMANDS) COMMANDS "close" w'
         = Ok tt (emit [Respond (Response.mk (VStr "close") 2
                                   ["Already closed!"])] w').
Proof.
  intros w Hinit Hready.
  assert (forall v, CommandManager.process (call COMMANDS) COMMANDS "close" v
                    = SerialCloseHandler (VStr "close") v) as Hclose
    by reflexivity.
  assert (forall v, CommandManager.process (call COMMANDS) COMMANDS "open" v
                    = SerialOpenHandler (VStr "open") [] v) as Hopen
    by reflexivity.
  assert (forall v, CommandManager.process (call COMMANDS) COMMANDS "write" v
                    = SerialWriteHandler (VStr "write") [] v) as Hwrite
    by reflexivity.
  rewrite Hclose. rewrite SerialCloseHandler_open by assumption.
  eexists. split; [reflexivity |]. split; [reflexivity |].
  rewrite Hopen, Hwrite, Hclose.
  split; [now apply SerialOpenHandler_unset |].
  split; [apply SerialWriteHandler_not_ready; now left |].
  apply SerialCloseHandler_closed. now left.
Qed.

Lemma after_close_only_set_witness :
  init (config opened) = true /\ ready (config opened) = true
  /\ exists w',
       CommandManager.process (call COMMANDS) COMMANDS "close" opened
       = Ok tt w'
       /\ config w' = mkConfig (VStr "COM3") false false 1%nat
       /\ CommandManager.process (call COMMANDS) COMMANDS "open" w'
          = Ok tt (emit [Respond (Response.mk (VStr "open") 2
                                    ["No serial device set!"])] w')
       /\ CommandManager.process (call COMMANDS) COMMANDS "write" w'
          = Ok tt (emit [Respond (Response.mk (VStr "write") 2
                                    ["Not ready!"])] w')
       /\ CommandManager.process (call COMMANDS) COMMANDS "close" w'
          = Ok tt (emit [Respond (Response.mk (VStr "close") 2
                                    ["Already closed!"])] w').
Proof.
  split; [reflexivity |]. split; [reflexivity |].
  exact (after_close_only_set opened eq_refl eq_refl).
Defined.

(** *** Transport events *)

Lemma notify_published (hooks : list Hook) (h : Handle) (ev : string)
  (k : PortListener) (payload : string) (w : World) :
  HOOKS w = hooks ->
  notify k payload w = Ok tt (emit (published hooks payload (h, ev, k)) w).
Proof.
  intros <-. unfold notify, published, OnError_body, OnData_body. simpl.
  destruct k; apply fireHook_deliveries.
Qed.

Lemma raise_event_published (ls : list (Handle * string * PortListener))
  (h : Handle) (ev payload : string) (w : World) :
  raise_event ls h ev payload w
  = Ok tt
      (emit (List.concat (map (published (HOOKS w) payload)
                            (filter (registered h ev) ls))) w).
Proof.
  revert w. induction ls as [| [[h' ev'] k] rest IH]; intros w.
  - simpl. unfold ret. now rewrite emit_nil.
  - simpl. unfold bind, registered at 1. simpl.
    destruct (Nat.eqb h' h && String.eqb ev' ev).
    + rewrite (notify_published (HOOKS w) h' ev') by reflexivity.
      rewrite IH. simpl. now rewrite emit_emit.
    + unfold ret. apply IH.
Qed.

(** X12.  An event raised by the transport on a port publishes, for each
    [port.on] registration of that event on that port and in registration
    order, the hook "error" with the error message or the hook "read" with
    the data, as a one-element array; nothing else of the world changes,
    and an event with no registration publishes nothing. *)
Theorem port_event_publishes :
  forall (h : Handle) (ev payload : string) (w : World),
    step (PortEvent h ev payload) w
    = Ok tt
        (emit (List.concat (map (published (HOOKS w) payload)
                              (filter (registered h ev) (listeners w)))) w)
    /\ (forall k, published (HOOKS w) payload (h, ev, k)
                  = map (fun l => Deliver l (PArray [payload]))
                      (subscribers (match k with
                                    | OnError => "error"
                                    | OnData => "read"
                                    end) (HOOKS w)))
    /\ (filter (registered h ev) (listeners w) = [] ->
        step (PortEvent h ev payload) w = Ok tt w).
Proof.
  intros h ev payload w. split; [apply raise_event_published |].
  split.
  - intros k. now destruct k.
  - intros Hnone. simpl. rewrite raise_event_published, Hnone. simpl.
    now rewrite emit_nil.
Qed.

Lemma port_event_publishes_witness :
  step (PortEvent 1%nat "data" "OK") opened
  = Ok tt (emit [Deliver print_read (PArray ["OK"])] opened)
  /\ filter (registered 0%nat "data") (listeners opened) = []
  /\ step (PortEvent 0%nat "data" "OK") opened = Ok tt opened.
Proof.
  destruct (port_event_publishes 1%nat "data" "OK" opened) as [Hheard _].
  destruct (port_event_publishes 0%nat "data" "OK" opened) as [_ [_ Hnone]].
  split; [exact Hheard |]. split; [reflexivity |].
  exact (Hnone eq_refl).
Defined.

Lemma registered_same (h : Handle) (ev : string) (k : PortListener) :
  registered h ev (h, ev, k) = true.
Proof.
  unfold registered. simpl. now rewrite Nat.eqb_refl, String.eqb_refl.
Qed.

(** X13.  After an open that succeeded, data arriving on the port is
    published on the "read" hook as a one-element array, once for the open
    just made and once more for every earlier registration that an open
    left on that port. *)
Theorem data_after_open_is_read :
  forall (data : string) (w : World),
    init (config w) = true -> ready (config w) = false ->
    run [Line "open"; Completed (length (pending w)) None;
         PortEvent (port (config w)) "data" data] w
    = Ok tt
        (mkWorld (mkConfig (device (config w)) true true (port (config w)))
           (HOOKS w) (ports w) (pending w)
           (listeners w
            ++ [(port (config w), "error", OnError);
                (port (config w), "data", OnData)])
           (trace w
            ++ [PortOpen (port (config w)); PortOn (port (config w)) "error";
                PortOn (port (config w)) "data"]
            ++ map (fun l => Deliver l (PArray []))
                 (subscribers "open" (HOOKS w))
            ++ [Respond (Response.mk (VStr "open") 0
                           [("Connection to [" ++ show (device (config w))
                             ++ "] opened!")%string])]
            ++ List.concat
                 (map (published (HOOKS w) data)
                    (filter (registered (port (config w)) "data")
                       (listeners w)))
            ++ map (fun l => Deliver l (PArray [data]))
                 (subscribers "read" (HOOKS w))))%list.
Proof.
  intros data w Hinit Hready.
  assert (step (Line "open") w = SerialOpenHandler (VStr "open") [] w)
    as Hopen by reflexivity.
  unfold run. unfold bind at 1. rewrite Hopen.
  rewrite SerialOpenHandler_opening by assumption.
  unfold bind at 1. erewrite step_Completed_last by reflexivity.
  rewrite OpenDone_success. unfold bind, ret.
  unfold step. rewrite raise_event_published. simpl.
  rewrite filter_app. simpl.
  rewrite registered_same.
  assert (registered (port (config w)) "data"
            (port (config w), "error", OnError) = false) as ->.
  { unfold registered. simpl. apply andb_false_r. }
  rewrite map_app, concat_app. simpl.
  unfold emit, with_trace, set_ready, published, deliveries. simpl.
  rewrite Hinit. rewrite app_nil_r. now rewrite <- !app_assoc.
Qed.

Lemma data_after_open_is_read_witness :
  init (config configured) = true /\ ready (config configured) = false
  /\ run [Line "open"; Completed 0 None; PortEvent 1%nat "data" "OK"]
       configured
     = Ok tt
         (mkWorld (mkConfig (VStr "COM3") true true 1%nat)
            (HOOKS configured) 2 []
            [(1%nat, "error", OnError); (1%nat, "data", OnData)]
            (trace configured
             ++ [PortOpen 1%nat; PortOn 1%nat "error"; PortOn 1%nat "data";
                 Respond (Response.mk (VStr "open") 0
                            ["Connection to [COM3] opened!"]);
                 Deliver print_read (PArray ["OK"])]))%list.
Proof.
  split; [reflexivity |]. split; [reflexivity |].
  exact (data_after_open_is_read "OK" configured eq_refl eq_refl).
Defined.

(** *** What a step does to the world *)

Lemma Effect_refl (w : World) (i : Input) : Effect w i w.
Proof.
  pose proof (EffEmit w i []) as Heff. now rewrite emit_nil in Heff.
Qed.

Lemma HelpHandler_outcome (name : Value) (args : list string) (w : World) :
  (exists r, HelpHandler COMMANDS name args w = Ok tt (emit [Respond r] w))
  \/ HelpHandler COMMANDS name args w = Throw TypeError w.
Proof.
  assert (usage_lines COMMANDS (keys COMMANDS) w
          = Ok (map usage_line COMMANDS) w) as Hall.
  { apply usage_lines_stored;
      [exact COMMANDS_unique_aliases | exact COMMANDS_well_formed | tauto]. }
  unfold HelpHandler, bind.
  destruct (index args 0) as [| | a].
  - left. unfold getNames. rewrite Hall. now eexists.
  - left. unfold getNames. rewrite Hall. now eexists.
  - destruct (getCommand COMMANDS a) as [c |].
    + left. now eexists.
    + now right.
Qed.

Lemma call_effect (line : string) (b : Builtin) (name : Value)
  (args : list string) (w : World) :
  (b = SerialSet -> hd EmptyString (split space line) = "set") ->
  Effect w (Line line) (world_of (call COMMANDS b name args w)).
Proof.
  intros Hset. destruct b; simpl call.
  - destruct (HelpHandler_outcome name args w) as [[r Hrun] | Hrun];
      rewrite Hrun; simpl; [apply EffEmit | apply Effect_refl].
  - apply Effect_refl.
  - destruct (truthy (index args 0)) eqn:Hpath.
    + rewrite SerialSetHandler_run by assumption. simpl.
      apply EffSet. now apply Hset.
    + rewrite SerialSetHandler_thrown by assumption. simpl.
      apply EffSetThrown. now apply Hset.
  - destruct (init (config w)) eqn:Hinit; [destruct (ready (config w)) eqn:Hready |].
    + rewrite SerialCloseHandler_open by assumption. simpl.
      now apply EffClose.
    + rewrite SerialCloseHandler_closed by now right. apply EffEmit.
    + rewrite SerialCloseHandler_closed by now left. apply EffEmit.
  - destruct (init (config w)) eqn:Hinit; [destruct (ready (config w)) eqn:Hready |].
    + rewrite SerialOpenHandler_started by assumption. apply EffEmit.
    + rewrite SerialOpenHandler_opening by assumption. simpl.
      now apply EffOpen.
    + rewrite SerialOpenHandler_unset by assumption. apply EffEmit.
  - destruct (init (config w)) eqn:Hinit; [destruct (ready (config w)) eqn:Hready |].
    + rewrite SerialWriteHandler_ready by assumption. simpl.
      now apply EffWrite.
    + rewrite SerialWriteHandler_not_ready by now right. apply EffEmit.
    + rewrite SerialWriteHandler_not_ready by now left. apply EffEmit.
Qed.

Lemma remove_nth_none {A} (n : nat) (l : list A) :
  nth_error l n = None -> remove_nth n l = l.
Proof.
  revert n. induction l as [| x l IH]; intros n Hnone.
  - now destruct n.
  - destruct n as [| n]; [discriminate |]. simpl in *. now rewrite IH.
Qed.

Lemma step_effect (i : Input) (w : World) :
  Effect w i (world_of (step i w)).
Proof.
  destruct i as [line | n err | h ev payload].
  - unfold step. rewrite process_COMMANDS.
    destruct (getCommand COMMANDS (hd EmptyString (split space line)))
      as [c |] eqn:Hget.
    + apply call_effect. intros Hb.
      apply getCommand_Some in Hget. destruct Hget as [Hin Htok].
      simpl in Hin.
      destruct Hin as [<- | [<- | [<- | [<- | [<- | [<- | []]]]]]];
        try discriminate Hb.
      simpl in Htok. now destruct Htok as [<- | []].
    + apply EffEmit.
  - unfold step, bind, take_pending.
    destruct (nth_error (pending w) n) as [[h k] |] eqn:Hnth; simpl.
    + destruct k as [name args | name msg]; destruct err as [message |].
      * rewrite OpenDone_failure. unfold emit, with_trace. simpl.
        apply (EffCompleted w n _ _ _ _ Hnth). now left.
      * rewrite OpenDone_success. simpl.
        apply (EffCompleted w n _ _ _ _ Hnth). now right.
      * rewrite WriteDone_failure. unfold emit, with_trace. simpl.
        apply (EffCompleted w n _ _ _ _ Hnth). now left.
      * rewrite WriteDone_success. unfold emit, with_trace. simpl.
        apply (EffCompleted w n _ _ _ _ Hnth). now left.
    + rewrite (remove_nth_none n (pending w) Hnth). unfold ret. simpl.
      destruct w. apply Effect_refl.
  - unfold step. rewrite raise_event_published. apply EffEmit.
Qed.

Lemma run_cons (i : Input) (rest : list Input) (w : World) :
  world_of (run (i :: rest) w)
  = match step i w with
    | Ok _ w' => world_of (run rest w')
    | _ => world_of (step i w)
    end.
Proof. simpl. unfold bind. now destruct (step i w). Qed.

(** A property of worlds kept by every step is kept by every run. *)
Lemma run_keeps (P : World -> Prop) :
  (forall i w, P w -> P (world_of (step i w))) ->
  forall inputs w, P w -> P (world_of (run inputs w)).
Proof.
  intros Hstep inputs. induction inputs as [| i rest IH]; intros w Hw.
  - exact Hw.
  - rewrite run_cons. pose proof (Hstep i w Hw) as Hnext.
    destruct (step i w) as [a w' | e w' | c w']; simpl in *;
      [now apply IH | assumption | assumption].
Qed.

Lemma Effect_frame (w w' : World) (i : Input) :
  Effect w i w' ->
  HOOKS w' = HOOKS w
  /\ (exists evs, trace w' = (trace w ++ evs)%list)
  /\ (ports w <= ports w')%nat.
Proof.
  intros Heff. destruct Heff; simpl; repeat split;
    try (now eexists); try (exists []; now rewrite app_nil_r); auto.
Qed.

(** X14.  Whatever the operator types and the transport does, a run never
    touches the hook subscriptions, never removes or rewrites an event
    already in the trace, and never forgets a constructed port: this also
    holds when the run ends in an exception or in the exit of the
    process. *)
Theorem run_frame :
  forall (inputs : list Input) (w : World),
    HOOKS (world_of (run inputs w)) = HOOKS w
    /\ (exists evs, trace (world_of (run inputs w)) = (trace w ++ evs)%list)
    /\ (ports w <= ports (world_of (run inputs w)))%nat.
Proof.
  intros inputs w.
  apply (run_keeps
           (fun v => HOOKS v = HOOKS w
                     /\ (exists evs, trace v = (trace w ++ evs)%list)
                     /\ (ports w <= ports v)%nat)).
  - intros i v [Hhooks [[evs Htrace] Hports]].
    destruct (Effect_frame v _ i (step_effect i v))
      as [Hhooks' [[evs' Htrace'] Hports']].
    split; [congruence |]. split.
    + exists (evs ++ evs')%list. rewrite Htrace', Htrace.
      now rewrite app_assoc.
    + now apply (Nat.le_trans _ (ports v)).
  - split; [reflexivity |]. split; [| apply Nat.le_refl].
    exists []. now rewrite app_nil_r.
Qed.

(** X17.  Only a line whose first token is [set] changes the device or
    the port of the context: every other line, every completion and every
    transport event leaves both as they are. *)
Theorem only_set_changes_device :
  forall (i : Input) (w : World),
    (forall line, i = Line line ->
                  hd EmptyString (split space line) <> "set") ->
    device (config (world_of (step i w))) = device (config w)
    /\ port (config (world_of (step i w))) = port (config w).
Proof.
  intros i w Hnot. pose proof (step_effect i w) as Heff.
  destruct Heff as [i evs | line path evs Htok | line path Htok | | |
                   | n err k c evs Hnth Hc];
    simpl; try (split; reflexivity).
  - exfalso. now apply (Hnot line).
  - exfalso. now apply (Hnot line).
  - destruct Hc as [-> | [_ ->]]; split; reflexivity.
Qed.

Lemma only_set_changes_device_witness :
  (forall line, Line "close" = Line line ->
                hd EmptyString (split space line) <> "set")
  /\ device (config (world_of (step (Line "close") opened))) = VStr "COM3"
  /\ port (config (world_of (step (Line "close") opened))) = 1%nat.
Proof.
  assert (forall line, Line "close" = Line line ->
                       hd EmptyString (split space line) <> "set") as Hnot.
  { intros line Heq. injection Heq as <-. simpl. discriminate. }
  split; [exact Hnot |].
  exact (only_set_changes_device (Line "close") opened Hnot).
Defined.

(** *** Handles *)

Lemma Forall_remove_nth {A} (P : A -> Prop) (n : nat) (l : list A) :
  Forall P l -> Forall P (remove_nth n l).
Proof.
  revert n. induction l as [| x l IH]; intros n Hall.
  - now destruct n.
  - inversion Hall; subst. destruct n as [| n]; simpl; [assumption |].
    constructor; [assumption | now apply IH].
Qed.

Lemma Effect_valid_handles (w w' : World) (i : Input) :
  Effect w i w' -> valid_handles w -> valid_handles w'.
Proof.
  unfold valid_handles.
  intros Heff [Hport [Hpend Hlist]].
  destruct Heff as [i evs | line path evs Htok | line path Htok
                   | line evs Hinit Hready
                   | line name args evs Hinit Hready
                   | line name msg evs Hinit Hready
                   | n err k c evs Hnth Hc]; simpl.
  - tauto.
  - split; [apply Nat.lt_succ_diag_r |].
    split; (eapply Forall_impl; [| eassumption]);
      intros x Hx; now apply Nat.lt_lt_succ_r.
  - tauto.
  - tauto.
  - split; [assumption |]. split.
    + apply Forall_app. split; [assumption | now repeat constructor].
    + apply Forall_app. split; [assumption | now repeat constructor].
  - split; [assumption |]. split; [| assumption].
    apply Forall_app. split; [assumption | now repeat constructor].
  - split; [now destruct Hc as [-> | [_ ->]] |].
    split; [now apply Forall_remove_nth | assumption].
Qed.

(** Every port the engine holds was constructed: in every world a
    run reaches from the start of the program, the port of the context, the
    ports of the pending completions and the ports with registered
    listeners are handles that [new SerialPort] returned. *)
Theorem handles_are_constructed :
  valid_handles initial
  /\ forall (inputs : list Input) (w : World),
       valid_handles w -> valid_handles (world_of (run inputs w)).
Proof.
  split.
  - unfold valid_handles. simpl. repeat split; auto.
  - intros inputs. apply (run_keeps valid_handles).
    intros i w Hvalid.
    exact (Effect_valid_handles w _ i (step_effect i w) Hvalid).
Qed.

Lemma handles_are_constructed_witness :
  valid_handles initial
  /\ valid_handles
       (world_of (run [Line "set COM3"; Line "open"; Line "set COM4";
                       Line "open"; Completed 1 None; Line "w hi"]
                    initial)).
Proof.
  destruct handles_are_constructed as [Hinitial Hrun].
  split; [exact Hinitial |].
  exact (Hrun _ initial Hinitial).
Defined.

(** *** The invariant in runs without overlapping opens *)

Lemma filter_remove_nth {A} (f : A -> bool) (n : nat) (l : list A) (x : A) :
  nth_error l n = Some x ->
  length (filter f l)
  = ((if f x then 1 else 0) + length (filter f (remove_nth n l)))%nat.
Proof.
  revert n. induction l as [| y l IH]; intros n Hnth.
  - now destruct n.
  - destruct n as [| n]; simpl in *.
    + injection Hnth as ->. now destruct (f x).
    + destruct (f y); simpl; rewrite (IH n Hnth); [| reflexivity].
      now rewrite Nat.add_succ_r.
Qed.

Lemma existsb_filter {A} (f : A -> bool) (l : list A) :
  existsb f l = negb (Nat.eqb (length (filter f l)) 0).
Proof.
  induction l as [| x l IH]; [reflexivity |].
  simpl. destruct (f x); simpl; [reflexivity | assumption].
Qed.

Lemma open_pending_count (w : World) :
  open_pending w = false <->
  length (filter is_open_callback (pending w)) = 0%nat.
Proof.
  unfold open_pending. rewrite existsb_filter.
  destruct (length (filter is_open_callback (pending w))); simpl;
    split; intros; congruence.
Qed.

Lemma Effect_settled (w w' : World) (i : Input) :
  Effect w i w' ->
  settled w ->
  (forall line, i = Line line -> open_pending w = false) ->
  settled w'.
Proof.
  unfold settled, invariant.
  intros Heff [Hinv [Hcount Hopen]] Hcalm.
  destruct Heff as [i evs | line path evs Htok | line path Htok
                   | line evs Hinit Hready
                   | line name args evs Hinit Hready
                   | line name msg evs Hinit Hready
                   | n err k c evs Hnth Hc].
  - simpl. tauto.
  - specialize (Hcalm line eq_refl).
    unfold open_pending in *. simpl.
    split; [reflexivity |]. split; [assumption |]. congruence.
  - specialize (Hcalm line eq_refl).
    unfold open_pending in *. simpl.
    split; [reflexivity |]. split; [assumption |]. congruence.
  - specialize (Hcalm line eq_refl).
    unfold open_pending in *. simpl.
    split; [discriminate |]. split; [assumption |]. congruence.
  - specialize (Hcalm line eq_refl).
    apply open_pending_count in Hcalm.
    unfold open_pending. simpl. rewrite filter_app, length_app, Hcalm.
    simpl. split; [assumption |]. split; [apply Nat.le_refl | tauto].
  - specialize (Hcalm line eq_refl).
    unfold open_pending in *. simpl.
    rewrite filter_app, length_app, existsb_app. simpl.
    rewrite Nat.add_0_r, orb_false_r. tauto.
  - pose proof (filter_remove_nth is_open_callback n (pending w) k Hnth)
      as Hlen.
    unfold open_pending in *. simpl.
    destruct Hc as [-> | [Hk ->]].
    + split; [assumption |]. split.
      * rewrite Hlen in Hcount.
        apply (Nat.le_trans _ _ _ (Nat.le_add_l _ _) Hcount).
      * intros Hstill. apply Hopen. rewrite existsb_filter in *.
        rewrite Hlen.
        destruct (length (filter is_open_callback
                            (remove_nth n (pending w))));
          [discriminate |].
        now rewrite Nat.add_succ_r.
    + rewrite Hk in Hlen.
      assert (length (filter is_open_callback (remove_nth n (pending w)))
              = 0%nat) as Hnone.
      { rewrite Hlen in Hcount. simpl in Hcount.
        apply Nat.succ_le_mono in Hcount. now apply Nat.le_0_r in Hcount. }
      assert (existsb is_open_callback (pending w) = true) as Hwas.
      { rewrite existsb_filter, Hlen. reflexivity. }
      destruct (Hopen Hwas) as [Hinit Hready].
      split; [simpl; now intros _ |]. split.
      * rewrite Hnone. apply Nat.le_0_l.
      * rewrite existsb_filter, Hnone. discriminate.
Qed.

Lemma settled_initial : settled initial.
Proof.
  unfold settled, invariant. simpl.
  split; [discriminate |]. split; [apply Nat.le_0_l | discriminate].
Qed.

Lemma disciplined_settled (inputs : list Input) (w : World) :
  settled w -> disciplined inputs w = true ->
  settled (world_of (run inputs w)).
Proof.
  revert w. induction inputs as [| i rest IH]; intros w Hw Hdisc.
  - exact Hw.
  - rewrite run_cons. simpl in Hdisc.
    apply andb_true_iff in Hdisc. destruct Hdisc as [Hcalm Hrest].
    assert (settled (world_of (step i w))) as Hnext.
    { apply (Effect_settled w _ i (step_effect i w) Hw).
      intros line ->. now apply negb_true_iff in Hcalm. }
    destruct (step i w) as [a w' | e w' | c w']; simpl in *;
      [now apply IH | assumption | assumption].
Qed.

(** X16.  As long as the operator enters no line while an open is
    pending, the invariant [ready = true -> init = true] holds in every
    world a run reaches from the start of the program; at most one open is
    then pending at a time, and while it is the context is initialised and
    not ready. *)
Theorem invariant_without_overlapping_opens :
  forall (inputs : list Input),
    disciplined inputs initial = true ->
    invariant (config (world_of (run inputs initial)))
    /\ settled (world_of (run inputs initial)).
Proof.
  intros inputs Hdisc.
  pose proof (disciplined_settled inputs initial settled_initial Hdisc)
    as Hsettled.
  split; [exact (proj1 Hsettled) | exact Hsettled].
Qed.

Lemma invariant_without_overlapping_opens_witness :
  disciplined [Line "set COM3"; Line "open"; Completed 0 None;
               Line "w hi"; Line "close"; Completed 0 None;
               Line "set COM4"; Line "open"; Completed 0 (Some "busy")]
    initial = true
  /\ invariant
       (config
          (world_of
             (run [Line "set COM3"; Line "open"; Completed 0 None;
                   Line "w hi"; Line "close"; Completed 0 None;
                   Line "set COM4"; Line "open"; Completed 0 (Some "busy")]
                initial))).
Proof.
  split; [reflexivity |].
  exact (proj1 (invariant_without_overlapping_opens
                  [Line "set COM3"; Line "open"; Completed 0 None;
                   Line "w hi"; Line "close"; Completed 0 None;
                   Line "set COM4"; Line "open"; Completed 0 (Some "busy")]
                  eq_refl)).
Defined.

(** *** More on dispatch over the built-in registry *)

(** X18.  A help line ([help] or [h]) whose second token names no command
    throws: the exception leaves [process], the callback is not called and
    the world is as before.  The second token of a help line that ends in a
    space is the empty string, so such a line throws as well. *)
Theorem help_line_with_unknown_name_throws :
  forall (line tok : string) (rest : list string) (w : World),
    In (hd EmptyString (split space line)) ["help"; "h"] ->
    tl (split space line) = tok :: rest ->
    is_alias COMMANDS tok = false ->
    CommandManager.process (call COMMANDS) COMMANDS line w
    = Throw TypeError w.
Proof.
  intros line tok rest w Hhelp Hargs Hunknown. rewrite process_COMMANDS.
  rewrite Hargs.
  assert (getCommand COMMANDS (hd EmptyString (split space line))
          = Some HelpCommand) as ->.
  { simpl in Hhelp. destruct Hhelp as [<- | [<- | []]]; reflexivity. }
  apply getCommand_None in Hunknown.
  simpl. unfold HelpHandler, bind. simpl. now rewrite Hunknown.
Qed.

Lemma help_line_with_unknown_name_throws_witness :
  In (hd EmptyString (split space "help ")) ["help"; "h"]
  /\ tl (split space "help ") = [""]
  /\ is_alias COMMANDS "" = false
  /\ CommandManager.process (call COMMANDS) COMMANDS "help " opened
     = Throw TypeError opened.
Proof.
  assert (In (hd EmptyString (split space "help ")) ["help"; "h"]) as Hhelp
    by (simpl; tauto).
  split; [exact Hhelp |]. split; [reflexivity |]. split; [reflexivity |].
  exact (help_line_with_unknown_name_throws "help " "" [] opened Hhelp
           eq_refl eq_refl).
Defined.

(** X19.  A line that starts with a space has the empty string as its
    first token and is answered with the "no command" response, whatever
    follows the space. *)
Theorem leading_space_is_no_command :
  forall (rest : string) (w : World),
    CommandManager.process (call COMMANDS) COMMANDS (" " ++ rest) w
    = Ok tt (emit [Respond (Response.mk VNull 1 ["Error: No Command"])] w).
Proof.
  intros rest w. rewrite process_COMMANDS. reflexivity.
Qed.

(** X21.  From a context that is not ready, [set] with a first argument
    that is not empty, followed by [open] and a successful completion,
    leaves the context initialised and ready on a newly constructed port for
    that argument, the open answered with status 0; a second [open] is then
    refused with status 2 ("Already started!"). *)
Theorem set_open_then_open_again :
  forall (text : string) (w : World),
    hd EmptyString (split space text) <> EmptyString ->
    ready (config w) = false ->
    run [Line ("set " ++ text); Line "open";
         Completed (length (pending w)) None; Line "open"] w
    = Ok tt
        (mkWorld
           (mkConfig (VStr (hd EmptyString (split space text))) true true
              (ports w))
           (HOOKS w) (S (ports w)) (pending w)
           (listeners w
            ++ [(ports w, "error", OnError); (ports w, "data", OnData)])
           (trace w
            ++ [PortNew (ports w) (VStr (hd EmptyString (split space text)))
                  9600 false]
            ++ map (fun l => Deliver l (PArray (split space text)))
                 (subscribers "set" (HOOKS w))
            ++ [Respond (Response.mk (VStr "set") 0
                           [("Set serial device to ["
                             ++ hd EmptyString (split space text)
                             ++ "]")%string]);
                PortOpen (ports w); PortOn (ports w) "error";
                PortOn (ports w) "data"]
            ++ map (fun l => Deliver l (PArray []))
                 (subscribers "open" (HOOKS w))
            ++ [Respond (Response.mk (VStr "open") 0
                           [("Connection to ["
                             ++ hd EmptyString (split space text)
                             ++ "] opened!")%string]);
                Respond (Response.mk (VStr "open") 2 ["Already started!"])]))%list.
Proof.
  intros text w Hdevice Hready.
  assert (forall v, step (Line "open") v
                    = SerialOpenHandler (VStr "open") [] v) as Hopen
    by reflexivity.
  assert (forall v, step (Line ("set " ++ text)) v
                    = SerialSetHandler (VStr "set") (split space text) v)
    as Hset.
  { intros v. unfold step. rewrite process_COMMANDS.
    change ("set " ++ text) with ("set" ++ String space text).
    rewrite (split_first_token space "set" text eq_refl). reflexivity. }
  assert (index (split space text) 0
          = VStr (hd EmptyString (split space text))) as Hdev.
  { pose proof (split_nonempty space text) as Hne.
    now destruct (split space text). }
  unfold run. unfold bind at 1. rewrite Hset.
  rewrite SerialSetHandler_run by (rewrite Hdev; now apply truthy_VStr).
  rewrite Hdev.
  unfold bind at 1. rewrite Hopen.
  rewrite SerialOpenHandler_opening by (simpl; auto).
  unfold bind at 1. simpl config. simpl pending.
  erewrite step_Completed_last by reflexivity.
  rewrite OpenDone_success.
  unfold bind at 1. rewrite Hopen.
  rewrite SerialOpenHandler_started by reflexivity.
  unfold ret, emit, with_trace, set_ready, deliveries. simpl.
  repeat (rewrite <- app_assoc; simpl). reflexivity.
Qed.

Lemma set_open_then_open_again_witness :
  hd EmptyString (split space "COM3 fast") <> EmptyString
  /\ ready (config initial) = false
  /\ run [Line "set COM3 fast"; Line "open"; Completed 0 None; Line "open"]
       initial
     = Ok tt
         (mkWorld (mkConfig (VStr "COM3") true true 1%nat)
            (HOOKS initial) 2 []
            [(1%nat, "error", OnError); (1%nat, "data", OnData)]
            (trace initial
             ++ [PortNew 1%nat (VStr "COM3") 9600 false;
                 Respond (Response.mk (VStr "set") 0
                            ["Set serial device to [COM3]"]);
                 PortOpen 1%nat; PortOn 1%nat "error"; PortOn 1%nat "data";
                 Respond (Response.mk (VStr "open") 0
                            ["Connection to [COM3] opened!"]);
                 Respond (Response.mk (VStr "open") 2 ["Already started!"])]))%list.
Proof.
  assert (hd EmptyString (split space "COM3 fast") <> EmptyString)
    as Hdevice by discriminate.
  split; [exact Hdevice |]. split; [reflexivity |].
  exact (set_open_then_open_again "COM3 fast" initial Hdevice eq_refl).
Defined.

(** *** Keys of the registry *)




(** X15.  On a registry listed as [Object.keys] lists it, [getCommand]
    returns the first stored command in that order (array-index keys first
    and ascending, then the other keys in registration order) that has the
    name among its names.  So a command registered later under a name
    already used is not found by that name, unless its first name is an
    array index, which [Object.keys] lists before the keys of the others. *)
Theorem getCommand_first_match :
  forall (H : Type) (before after : Registry H) (key : string)
         (c : Command.t H) (name : string),
    key_ordered (keys (before ++ (key, c) :: after)%list) = true ->
    (forall kc, In kc before -> ~ In name (Command.name (snd kc))) ->
    In name (Command.name c) ->
    getCommand (before ++ (key, c) :: after)%list name = Some c.
Proof.
  intros H before after key c name _ Hbefore Hname. unfold getCommand.
  induction before as [| kc rest IH]; simpl.
  - apply includes_In in Hname. now rewrite Hname.
  - destruct (includes (Command.name (snd kc)) name) eqn:Hinc.
    + apply includes_In in Hinc. exfalso.
      apply (Hbefore kc); [now left | assumption].
    + apply IH. intros kc' Hin. apply Hbefore. now right.
Qed.

Lemma getCommand_first_match_witness :
  key_ordered
    (keys (registerCommand COMMANDS
             (Command.mk ["query"; "q"] SerialWrite [])))
  = true
  /\ (forall kc, In kc [("help", HelpCommand)] ->
                 ~ In "q" (Command.name (snd kc)))
  /\ In "q" (Command.name QuitCommand)
  /\ getCommand
       (registerCommand COMMANDS (Command.mk ["query"; "q"] SerialWrite []))
       "q"
     = Some QuitCommand
  /\ key_ordered
       (keys (registerCommand COMMANDS
                (Command.mk ["1"; "q"] SerialWrite [])))
     = true
  /\ In "q" (Command.name (Command.mk ["1"; "q"] SerialWrite []))
  /\ getCommand
       (registerCommand COMMANDS (Command.mk ["1"; "q"] SerialWrite []))
       "q"
     = Some (Command.mk ["1"; "q"] SerialWrite []).
Proof.
  assert (forall kc, In kc [("help", HelpCommand)] ->
                     ~ In "q" (Command.name (snd kc))) as Hbefore.
  { intros kc [<- | []]. simpl. intuition discriminate. }
  assert (forall kc : string * Command.t Builtin,
             In kc [] -> ~ In "q" (Command.name (snd kc))) as Hfirst
    by (intros kc []).
  assert (In "q" (Command.name QuitCommand)) as Hquit by (simpl; tauto).
  assert (In "q" (Command.name (Command.mk ["1"; "q"] SerialWrite [])))
    as Hone by (simpl; tauto).
  split; [reflexivity |]. split; [exact Hbefore |]. split; [exact Hquit |].
  split.
  { exact (getCommand_first_match Builtin [("help", HelpCommand)]
             [("set", SerialSetCommand); ("close", SerialCloseCommand);
              ("open", SerialOpenCommand); ("write", SerialWriteCommand);
              ("query", Command.mk ["query"; "q"] SerialWrite [])]
             "quit" QuitCommand "q" eq_refl Hbefore Hquit). }
  split; [reflexivity |]. split; [exact Hone |].
  exact (getCommand_first_match Builtin [] COMMANDS "1"
           (Command.mk ["1"; "q"] SerialWrite []) "q" eq_refl Hfirst Hone).
Defined.
